(** * Medusa gRPC service: job registry, status resolver, summary aggregation

    A shallow embedding of [medusa/service/grpc/server.py]: the four request
    handlers of [MedusaService] ([Backup], [BackupStatus], [GetBackups],
    [DeleteBackup]) and the module-level helpers [handle_backup_status],
    [handle_backup_removal] and [handle_backup_removal_all].

    Python objects that are shared and mutated (the futures held by the
    registry and fulfilled by worker threads) live in an explicit store and
    are referred to by location; handlers are written in a small
    state-and-exception monad over the process state and the response
    object under construction.  The operations of other modules (storage,
    listing, purge, the backup job) are inputs, gathered in [Collaborators];
    [BackupMan] follows the spec's description of the job registry. *)

From stdpp Require Import gmap strings list fin_maps pretty.
From Stdlib Require Import ZArith Ascii.

Open Scope Z_scope.
Open Scope string_scope.
Open Scope list_scope.

(** ** Exceptions and results *)

(** The classes of the faults that occur in the modelled paths.  Those that
    a handler can meet derive from Python's [Exception], so
    [except Exception] catches each; [except KeyError] catches the first
    only.  [InvalidStateError] and [CancelledError] complete
    [Future.result()]; no path of the service reaches them. *)
Inductive ExceptionClass :=
  | KeyError
  | TypeError
  | RuntimeError
  | IOError
  | InvalidStateError
  | CancelledError
  | AttributeError
  | ValueError
  | OverflowError.

Global Instance ExceptionClass_eq_dec : EqDecision ExceptionClass.
Proof. solve_decision. Defined.

Record PyException := mkException {
  exc_class : ExceptionClass;
  exc_str : string            (* what [str(e)] / ["{}".format(e)] prints *)
}.

Global Instance PyException_eq_dec : EqDecision PyException.
Proof. solve_decision. Defined.

(** Outcome of a Python call: a value, or a raised exception. *)
Inductive Result (A : Type) :=
  | Ok (a : A)
  | Raise (e : PyException).
Arguments Ok {A} a.
Arguments Raise {A} e.

Global Instance Result_ret : MRet Result := λ A a, Ok a.

Global Instance Result_bind : MBind Result := λ A B k r,
  match r with
  | Ok a => k a
  | Raise e => Raise e
  end.

(** ** Constants of the module *)

Definition BACKUP_MODE_DIFFERENTIAL : string := "differential".
Definition BACKUP_MODE_FULL : string := "full".

(** [datetime.fromtimestamp(t).strftime(TIMESTAMP_FORMAT)] is kept symbolic:
    the formatted text of epoch [t], or the empty string. *)
Inductive TimeString :=
  | EmptyTime
  | Strftime (t : Z).

(** ** Futures *)

(** What a finished job hands back ([backup_node.handle_backup]'s return
    value): [None], or a value that is opaque to the service. *)
Definition JobResult := option string.

(** [asyncio.Future] and [concurrent.futures.Future] are different classes.
    [Executor.submit] returns the latter; [asyncio.isfuture] accepts only
    the former (it tests the class attribute [_asyncio_future_blocking],
    which [concurrent.futures.Future] does not have). *)
Inductive FutureClass :=
  | AsyncioFuture
  | ConcurrentFuture.

Inductive FutureState :=
  | PENDING
  | FINISHED (r : JobResult)
  | RAISED (e : PyException)
  | CANCELLED.

Record Future := mkFuture {
  fut_class : FutureClass;
  fut_state : FutureState
}.

Module future.

Definition done (f : Future) : bool :=
  match fut_state f with PENDING => false | _ => true end.

Definition cancelled (f : Future) : bool :=
  match fut_state f with CANCELLED => true | _ => false end.

(** [Future.result()] of a future that is done: the value, or the captured
    exception raised again.  The source calls it on done, not cancelled
    futures only; the two other rows follow [asyncio.Future]. *)
Definition result (f : Future) : Result JobResult :=
  match fut_state f with
  | FINISHED r => Ok r
  | RAISED e => Raise e
  | CANCELLED => Raise (mkException CancelledError "")
  | PENDING => Raise (mkException InvalidStateError "Result is not set.")
  end.

End future.

Module asyncio.

Definition isfuture (f : Future) : bool :=
  match fut_class f with AsyncioFuture => true | ConcurrentFuture => false end.

End asyncio.

(** ** gRPC context and log *)

Module grpc.
Inductive StatusCode := INTERNAL | NOT_FOUND.
End grpc.

Record ServicerContext := mkContext {
  details : option string;
  code : option grpc.StatusCode
}.

Inductive LogRecord :=
  | LogInfo (msg : string)
  | LogException (msg : string) (e : PyException).

(** ** Process state *)

Definition loc := nat.

(** How a job ends when a worker thread runs it: the submitted call returns, or
    raises and the worker stores the exception in the future. *)
Inductive JobOutcome :=
  | JobReturns (r : JobResult)
  | JobRaises (e : PyException).

(** A call queued in an executor: the future to fulfil and what running the
    call will produce. *)
Record WorkItem := mkWorkItem {
  wi_future : loc;
  wi_outcome : JobOutcome
}.

(** [heap] holds the future objects; [backups] is the table of [BackupMan]
    (name to reference); [work_queue] is the work submitted to executors
    and not yet finished by their worker threads; [context] is the context
    of the call being served; [log] collects what [logging] received,
    oldest first. *)
Record State := mkState {
  heap : gmap loc Future;
  backups : gmap string loc;
  work_queue : list WorkItem;
  context : ServicerContext;
  log : list LogRecord
}.

Definition with_heap (h : gmap loc Future) (st : State) : State :=
  mkState h (backups st) (work_queue st) (context st) (log st).
Definition with_backups (b : gmap string loc) (st : State) : State :=
  mkState (heap st) b (work_queue st) (context st) (log st).
Definition with_work_queue (q : list WorkItem) (st : State) : State :=
  mkState (heap st) (backups st) q (context st) (log st).
Definition with_context (c : ServicerContext) (st : State) : State :=
  mkState (heap st) (backups st) (work_queue st) c (log st).
Definition with_log (l : list LogRecord) (st : State) : State :=
  mkState (heap st) (backups st) (work_queue st) (context st) l.

Definition set_details (d : string) (st : State) : State :=
  with_context (mkContext (Some d) (code (context st))) st.
Definition set_code (c : grpc.StatusCode) (st : State) : State :=
  with_context (mkContext (details (context st)) (Some c)) st.

Module logging.
Definition info (msg : string) (st : State) : State :=
  with_log (log st ++ [LogInfo msg]) st.
Definition exception (msg : string) (e : PyException) (st : State) : State :=
  with_log (log st ++ [LogException msg e]) st.
End logging.

(** ** BackupMan: the job registry *)

Module BackupMan.

(** Modelled from the spec: the status constants of
    [medusa.backup_manager.BackupMan], which is not part of the sources at
    hand; the spec gives a closed enumeration of distinct values (its
    NOT_FOUND is the [None] that [handle_backup_status] returns). *)
Inductive Status := IN_PROGRESS | SUCCESS | FAILED.

Global Instance Status_eq_dec : EqDecision Status.
Proof. solve_decision. Defined.

(** Modelled from the spec: [register(name, handle)] inserts or overwrites
    the entry for [name]. *)
Definition set_backup (backup_name : string) (future : loc) (st : State) : State :=
  with_backups (<[backup_name := future]> (backups st)) st.

(** Modelled from the spec: [lookup(name)] is the handle or absent; it
    never blocks and never fails. *)
Definition get_backup_future (backup_name : string) (st : State) : option loc :=
  backups st !! backup_name.

(** Modelled from the spec: [remove(name)] deletes the entry if present and
    is a no-op otherwise. *)
Definition remove_backup (backup_name : string) (st : State) : State :=
  with_backups (delete backup_name (backups st)) st.

(** Modelled from the spec: [clear_all()] removes every entry. *)
Definition cleanup_all_backups (st : State) : State :=
  with_backups ∅ st.

End BackupMan.

(** ** The status resolver *)

(** [handle_backup_status(backup_name)]: the pair [(status, result)], or the
    exception that [backup_future.result()] raised.  The registry is only
    read.  [backup_future and asyncio.isfuture(backup_future)]: a missing
    entry is [None], which is falsy; future objects are always truthy.  The
    reference found in the table is followed into the store. *)
Definition handle_backup_status (backup_name : string) (st : State)
  : Result (option BackupMan.Status * JobResult) :=
  match BackupMan.get_backup_future backup_name st ≫= (heap st !!.) with
  | Some backup_future =>
      if asyncio.isfuture backup_future then
        if future.done backup_future && negb (future.cancelled backup_future) then
          match future.result backup_future with
          | Ok result => Ok (Some BackupMan.SUCCESS, result)
          | Raise e => Raise e
          end
        else if negb (future.done backup_future) && negb (future.cancelled backup_future) then
          Ok (Some BackupMan.IN_PROGRESS, None)
        else
          Ok (Some BackupMan.FAILED, None)
      else Ok (None, None)
  | None => Ok (None, None)
  end.

Definition handle_backup_removal (backup_name : string) (st : State) : State :=
  BackupMan.remove_backup backup_name st.

Definition handle_backup_removal_all (st : State) : State :=
  BackupMan.cleanup_all_backups st.

(** ** The handler monad *)

(** A computation over a state [S] that returns a value or raises. *)
Definition M (S A : Type) : Type := S → Result A * S.

Global Instance M_ret {S} : MRet (M S) := λ A a s, (Ok a, s).

Global Instance M_bind {S} : MBind (M S) := λ A B k m s,
  match m s with
  | (Ok a, s') => k a s'
  | (Raise e, s') => (Raise e, s')
  end.

Definition raise {S A} (e : PyException) : M S A := λ s, (Raise e, s).

Definition lift {S A} (r : Result A) : M S A := λ s, (r, s).

Definition gets {S A} (f : S → A) : M S A := λ s, (Ok (f s), s).

Definition modify {S} (f : S → S) : M S unit := λ s, (Ok (), f s).

(** [try: body / except <classes>: handler]: state changes made by [body]
    before the fault stay. *)
Definition try_except {S A} (body : M S A) (catches : PyException → bool)
    (handler : PyException → M S A) : M S A := λ s,
  match body s with
  | (Ok a, s') => (Ok a, s')
  | (Raise e, s') => if catches e then handler e s' else (Raise e, s')
  end.

Definition except_Exception (e : PyException) : bool := true.

Definition except_KeyError (e : PyException) : bool :=
  bool_decide (exc_class e = KeyError).

(** A handler works on the process state and on the response object it
    builds; both survive a fault raised half-way. *)
Record Frame (R : Type) := mkFrame {
  process : State;
  response : R
}.
Arguments mkFrame {R} process response.
Arguments process {R} f.
Arguments response {R} f.

Definition on_process {R} (f : State → State) : M (Frame R) unit :=
  modify (λ fr, mkFrame (f (process fr)) (response fr)).

Definition on_response {R} (f : R → R) : M (Frame R) unit :=
  modify (λ fr, mkFrame (process fr) (f (response fr))).

(** Runs handler [h] on a fresh response object [r0]. *)
Definition serve {R} (h : M (Frame R) R) (r0 : R) (st : State) : Result R * State :=
  let '(r, fr) := h (mkFrame st r0) in (r, process fr).

(** ** Messages of [medusa_pb2] *)

(** The message classes are generated from [medusa.proto]; the handlers use
    only the fields below.  A field that a handler may leave unassigned is
    an [option] ([None]: never assigned); the others start from the default
    of their type.  As declared there, [startTime] and [finishTime] of a
    summary and the tokens of a node are [int64], [totalNodes] and
    [finishedNodes] of a summary are [int32], and the three node lists of
    [BackupStatusResponse] are repeated fields: protobuf checks the range of
    a number when it is stored and refuses an assignment to a repeated
    field. *)
Module medusa_pb2.

(** [BackupRequest.Mode]: a protobuf enum, in Python an [int]; a request
    can carry any number in its [mode] field.  The two names are numbered
    as in the enum declaration of [medusa.proto]. *)
Definition Mode := Z.
Definition DIFFERENTIAL : Mode := 0.
Definition FULL : Mode := 1.

(** What ["{}".format(request.mode)] prints: the number, in decimal. *)
Definition Mode_str (m : Mode) : string := pretty m.

(** The double quote, for the texts of protobuf's faults. *)
Definition dquote : string := String (ascii_of_nat 34) EmptyString.

(** [message.field = value] for a repeated field: protobuf refuses the
    assignment with an [AttributeError], whatever the value (the wording of
    the text differs between protobuf releases). *)
Definition assign_repeated {S A} (field : string) (value : list A) : M S unit :=
  raise (mkException AttributeError
    ("Assignment not allowed to repeated field " +:+ dquote +:+ field +:+ dquote
       +:+ " in protocol message object.")).

(** The range check of an [int64] field, on assignment and on [append] to a
    repeated [int64] field. *)
Definition int64 (v : Z) : Result Z :=
  if bool_decide (- 2 ^ 63 ≤ v < 2 ^ 63) then Ok v
  else Raise (mkException ValueError ("Value out of range: " +:+ pretty v)).

(** The range check of an [int32] field, for a value that is a length. *)
Definition int32 (n : nat) : Result nat :=
  if bool_decide (Z.of_nat n < 2 ^ 31) then Ok n
  else Raise (mkException ValueError ("Value out of range: " +:+ pretty n)).

Inductive BackupStatusType := IN_PROGRESS | SUCCESS | FAILED.

Module BackupRequest.
Record t := mk { name : string; mode : Mode }.
End BackupRequest.

Module BackupResponse.
Record t := mk { backupName : string; status : option BackupStatusType }.
Definition new : t := mk "" None.
Definition set_backupName (v : string) (r : t) : t := mk v (status r).
Definition set_status (v : BackupStatusType) (r : t) : t := mk (backupName r) (Some v).
End BackupResponse.

Module BackupStatusRequest.
Record t := mk { backupName : string }.
End BackupStatusRequest.

Module BackupStatusResponse.
Record t := mk {
  startTime : TimeString;
  finishTime : TimeString;
  finishedNodes : list string;
  unfinishedNodes : list string;
  missingNodes : list string;
  status : option BackupStatusType
}.
Definition new : t := mk EmptyTime EmptyTime [] [] [] None.
Definition set_startTime (v : TimeString) (r : t) : t :=
  mk v (finishTime r) (finishedNodes r) (unfinishedNodes r) (missingNodes r) (status r).
Definition set_finishTime (v : TimeString) (r : t) : t :=
  mk (startTime r) v (finishedNodes r) (unfinishedNodes r) (missingNodes r) (status r).
Definition set_status (v : BackupStatusType) (r : t) : t :=
  mk (startTime r) (finishTime r) (finishedNodes r) (unfinishedNodes r) (missingNodes r) (Some v).
End BackupStatusResponse.

Module BackupNode.
Record t := mk {
  host : string;
  datacenter : string;
  rack : string;
  tokens : list Z
}.
End BackupNode.

(** [GetBackups] stores the constants of [BackupMan] in [status]
    directly. *)
Module BackupSummary.
Record t := mk {
  backupName : string;
  startTime : Z;
  finishTime : Z;
  status : option BackupMan.Status;
  totalNodes : nat;
  finishedNodes : nat;
  nodes : list BackupNode.t
}.
End BackupSummary.

Module GetBackupsResponse.
Record t := mk { backups : list BackupSummary.t }.
Definition new : t := mk [].
Definition append (s : BackupSummary.t) (r : t) : t := mk (backups r ++ [s]).
End GetBackupsResponse.

Module DeleteBackupRequest.
Record t := mk { name : string }.
End DeleteBackupRequest.

Module DeleteBackupResponse.
Record t := mk { }.
Definition new : t := mk.
End DeleteBackupResponse.

End medusa_pb2.

(** ** Durable records, as the storage collaborator hands them out *)

Record NodeBackup := mkNodeBackup { fqdn : string }.

(** One entry of the token map: a dict in which each of the keys ["dc"],
    ["rack"] and ["tokens"] may be missing. *)
Record TokenmapEntry := mkTokenmapEntry {
  dc : option string;
  rack : option string;
  tokens : option (list Z)
}.

(** A cluster backup.  The token map is a dict, given by its items in the
    order in which the dict iterates (the keys are distinct).  The three
    node sets are computed by the collaborator from stored manifests when
    the method is called, which can fail. *)
Module ClusterBackup.
Record t := mk {
  name : string;
  started : option Z;
  finished : option Z;
  tokenmap : list (string * TokenmapEntry);
  complete_nodes : Result (list NodeBackup);
  incomplete_nodes : Result (list NodeBackup);
  missing_nodes : Result (list NodeBackup)
}.
End ClusterBackup.

(** ** External collaborators *)

(** What the operations of the other modules do when a handler calls them:
    - [submit_fault name mode]: the fault of [executor.submit] when the call
      cannot be scheduled;
    - [handle_backup name mode]: how [backup_node.handle_backup] ends once a
      worker runs it;
    - [get_cluster_backup], [get_backups], [delete_backup]: storage, listing
      and purge;
    - [timestamp_fault t]: the fault of [datetime.fromtimestamp(t)] when [t]
      is outside what the platform's [localtime] and the years of
      [datetime] cover ([OverflowError], [ValueError] or [OSError]). *)
Record Collaborators := mkCollaborators {
  submit_fault : string → string → option PyException;
  handle_backup : string → string → JobOutcome;
  get_cluster_backup : string → Result ClusterBackup.t;
  get_backups : Result (list ClusterBackup.t);
  delete_backup : list string → Result unit;
  timestamp_fault : Z → option PyException
}.

(** ** The thread-pool executor *)

Module ThreadPoolExecutor.

(** [executor.submit(fn, ...)]: a new pending [concurrent.futures.Future]
    and the call queued for the worker, or the scheduling fault. *)
Definition submit {R} (fault : option PyException) (outcome : JobOutcome)
  : M (Frame R) loc := λ fr,
  match fault with
  | Some e => (Raise e, fr)
  | None =>
      let st := process fr in
      let l := fresh (dom (heap st)) in
      (Ok l,
       mkFrame
         (with_work_queue (work_queue st ++ [mkWorkItem l outcome])
            (with_heap (<[l := mkFuture ConcurrentFuture PENDING]> (heap st)) st))
         (response fr))
  end.

(** The worker runs one queued call and stores its outcome in the future
    ([set_result] / [set_exception]); a future that is no longer pending
    is skipped. *)
Definition run_work_item (h : gmap loc Future) (w : WorkItem) : gmap loc Future :=
  alter (λ f,
    match fut_state f with
    | PENDING =>
        mkFuture (fut_class f)
          match wi_outcome w with
          | JobReturns r => FINISHED r
          | JobRaises e => RAISED e
          end
    | _ => f
    end) (wi_future w) h.

(** [executor.shutdown(wait=True)] returns when the worker threads have run
    every queued call. *)
Definition shutdown_wait (st : State) : State :=
  with_work_queue [] (with_heap (foldl run_work_item (heap st) (work_queue st)) st).

(** [with ThreadPoolExecutor(...) as executor: body].  Leaving the block,
    normally or by an exception, calls [__exit__], which is
    [shutdown(wait=True)]. *)
Definition with_executor {R A} (body : M (Frame R) A) : M (Frame R) A := λ fr,
  let '(r, fr') := body fr in
  (r, mkFrame (shutdown_wait (process fr')) (response fr')).

End ThreadPoolExecutor.

(** ** Helpers of the handlers *)

(** [template.format(args...)] for templates whose only fields are [{}]. *)
Fixpoint format (template : string) (args : list string) : string :=
  match template with
  | String "{"%char (String "}"%char rest) =>
      match args with
      | a :: args' => a +:+ format rest args'
      | [] => format rest []
      end
  | String c rest => String c (format rest args)
  | EmptyString => EmptyString
  end.

(** [datetime.fromtimestamp(t)] needs a number, [None] raises [TypeError],
    and a number that the platform can convert, [fault t] otherwise. *)
Definition fromtimestamp (fault : Z → option PyException) (t : option Z) : Result Z :=
  match t with
  | Some t =>
      match fault t with
      | None => Ok t
      | Some e => Raise e
      end
  | None => Raise (mkException TypeError "an integer is required (got type NoneType)")
  end.

(** Truth value of a timestamp that may be [None]: [None] and [0] are
    falsy. *)
Definition truthy (t : option Z) : bool :=
  match t with
  | Some t => negb (Z.eqb t 0)
  | None => false
  end.

(** One [BackupNode] row of [GetBackups], for token-map key [node] with entry
    [backup.tokenmap[node]]: host, datacenter and rack are assigned, then
    the tokens are appended one by one to the repeated [int64] field. *)
Definition tokenmap_node (node : string) (entry : TokenmapEntry)
  : Result medusa_pb2.BackupNode.t :=
  let datacenter := match dc entry with Some d => d | None => "" end in
  let rack := match rack entry with Some r => r | None => "" end in
  tokens ← match tokens entry with
           | Some ts => mapM medusa_pb2.int64 ts
           | None => Ok []
           end;
  Ok (medusa_pb2.BackupNode.mk node datacenter rack tokens).

(** One pass of the body of [for backup in backups:] in [GetBackups], up to
    the [append]: the summary built for [backup] and the value of the local
    [last_status] afterwards, or the first fault.  The summary under
    construction is a local object, lost when a fault interrupts the
    pass. *)
Definition summarize (backup : ClusterBackup.t) (last_status : BackupMan.Status)
  : Result (medusa_pb2.BackupSummary.t * BackupMan.Status) :=
  startTime ←
    match ClusterBackup.started backup with
    | None => medusa_pb2.int64 0
    | Some t => medusa_pb2.int64 t
    end;
  '(finishTime, status, last_status) ←
    match ClusterBackup.finished backup with
    | None =>
        finishTime ← medusa_pb2.int64 0;
        Ok (finishTime, Some BackupMan.IN_PROGRESS, BackupMan.IN_PROGRESS)
    | Some t =>
        finishTime ← medusa_pb2.int64 t;
        Ok (finishTime,
            if decide (last_status ≠ BackupMan.IN_PROGRESS)
            then Some BackupMan.SUCCESS else None,
            last_status)
    end;
  totalNodes ← medusa_pb2.int32 (length (ClusterBackup.tokenmap backup));
  complete ← ClusterBackup.complete_nodes backup;
  finishedNodes ← medusa_pb2.int32 (length complete);
  nodes ← mapM (λ item, tokenmap_node item.1 item.2) (ClusterBackup.tokenmap backup);
  Ok (medusa_pb2.BackupSummary.mk (ClusterBackup.name backup) startTime finishTime status
        totalNodes finishedNodes nodes,
      last_status).

(** ** MedusaService *)

Section MedusaService.

Import medusa_pb2.

Variable env : Collaborators.

Definition Backup (request : BackupRequest.t) : M (Frame BackupResponse.t) BackupResponse.t :=
  on_process (logging.info (format "Performing backup {} (type={})"
    [BackupRequest.name request; Mode_str (BackupRequest.mode request)]));;
  let mode :=
    if decide (FULL = BackupRequest.mode request)
    then BACKUP_MODE_FULL else BACKUP_MODE_DIFFERENTIAL in
  try_except
    (on_response (BackupResponse.set_backupName (BackupRequest.name request));;
     ThreadPoolExecutor.with_executor
       (backup_future ←
          ThreadPoolExecutor.submit
            (submit_fault env (BackupRequest.name request) mode)
            (handle_backup env (BackupRequest.name request) mode);
        resp ← gets response;
        on_process (BackupMan.set_backup (BackupResponse.backupName resp) backup_future));;
     on_response (BackupResponse.set_status IN_PROGRESS);;
     on_process (logging.info (format "Backup {} is in progress" [BackupRequest.name request])))
    except_Exception
    (λ e,
       on_process (set_details (format "failed to create backups: {}" [exc_str e]));;
       on_process (set_code grpc.INTERNAL);;
       on_process (logging.exception "backup failed" e);;
       on_response (BackupResponse.set_status FAILED));;
  gets response.

Definition BackupStatus (request : BackupStatusRequest.t)
  : M (Frame BackupStatusResponse.t) BackupStatusResponse.t :=
  try_except
    (backup ← lift (get_cluster_backup env (BackupStatusRequest.backupName request));
     on_process (logging.info "Checking status: handle_backup_status ");;
     '(status, _) ← (λ fr,
        (handle_backup_status (BackupStatusRequest.backupName request) (process fr), fr));
     t ← lift (fromtimestamp (timestamp_fault env) (ClusterBackup.started backup));
     on_response (BackupStatusResponse.set_startTime (Strftime t));;
     nodes ← lift (ClusterBackup.complete_nodes backup);
     assign_repeated "finishedNodes" (fqdn <$> nodes);;
     nodes ← lift (ClusterBackup.incomplete_nodes backup);
     assign_repeated "unfinishedNodes" (fqdn <$> nodes);;
     nodes ← lift (ClusterBackup.missing_nodes backup);
     assign_repeated "missingNodes" (fqdn <$> nodes);;
     (if truthy (ClusterBackup.finished backup) then
        t ← lift (fromtimestamp (timestamp_fault env) (ClusterBackup.finished backup));
        on_response (BackupStatusResponse.set_finishTime (Strftime t))
      else
        on_response (BackupStatusResponse.set_finishTime EmptyTime));;
     (if decide (status = Some BackupMan.IN_PROGRESS)
      then on_response (BackupStatusResponse.set_status IN_PROGRESS) else mret ());;
     (if decide (status = Some BackupMan.FAILED)
      then on_response (BackupStatusResponse.set_status FAILED) else mret ());;
     (if decide (status = Some BackupMan.SUCCESS)
      then on_response (BackupStatusResponse.set_status SUCCESS) else mret ());;
     gets response)
    except_KeyError
    (λ _,
       on_process (set_details (format "backup <{}> does not exist"
         [BackupStatusRequest.backupName request]));;
       on_process (set_code grpc.NOT_FOUND);;
       gets response).

(** [for backup in backups:], each pass appending its summary, with the
    local [last_status] passed along. *)
Fixpoint GetBackups_loop (backups : list ClusterBackup.t) (last_status : BackupMan.Status)
  : M (Frame GetBackupsResponse.t) unit :=
  match backups with
  | [] => mret ()
  | backup :: backups' =>
      '(summary, last_status) ← lift (summarize backup last_status);
      on_response (GetBackupsResponse.append summary);;
      GetBackups_loop backups' last_status
  end.

Definition GetBackups : M (Frame GetBackupsResponse.t) GetBackupsResponse.t :=
  try_except
    (backups ← lift (get_backups env);
     GetBackups_loop backups BackupMan.SUCCESS;;
     gets response)
    except_Exception
    (λ e,
       on_process (set_details (format "failed to get backups: {}" [exc_str e]));;
       on_process (set_code grpc.INTERNAL);;
       gets response).

Definition DeleteBackup (request : DeleteBackupRequest.t)
  : M (Frame DeleteBackupResponse.t) DeleteBackupResponse.t :=
  on_process (logging.info (format "Deleting backup {}" [DeleteBackupRequest.name request]));;
  try_except
    (lift (delete_backup env [DeleteBackupRequest.name request]);;
     on_process (handle_backup_removal (DeleteBackupRequest.name request)))
    except_Exception
    (λ e,
       on_process (set_details (format "deleting backups failed: {}" [exc_str e]));;
       on_process (set_code grpc.INTERNAL);;
       on_process (logging.exception
         (format "Deleting backup {} failed" [DeleteBackupRequest.name request]) e));;
  gets response.

End MedusaService.

(** * Specification vocabulary and example data *)

Import medusa_pb2.

(** A process with nothing registered and nothing logged. *)
Definition idle : State := mkState ∅ ∅ [] (mkContext None None) [].

(** The state in which ["snap1"] is registered with the future that
    [executor.submit] made for it, the job having returned. *)
Definition snap1_done : State :=
  mkState {[ 0%nat := mkFuture ConcurrentFuture (FINISHED (Some "stats")) ]}
          {[ "snap1" := 0%nat ]} [] (mkContext None None) [].

(** A registry with one asyncio future per branch of the tree. *)
Definition three_futures : State :=
  mkState {[ 0%nat := mkFuture AsyncioFuture (FINISHED (Some "stats"));
             1%nat := mkFuture AsyncioFuture PENDING;
             2%nat := mkFuture AsyncioFuture CANCELLED;
             3%nat := mkFuture ConcurrentFuture PENDING ]}
          {[ "a" := 0%nat; "b" := 1%nat; "c" := 2%nat; "d" := 3%nat ]}
          [] (mkContext None None) [].

(** The registry entry of a job whose computation raised, as an asyncio
    future and as the executor's future. *)
Definition snap1_raised (c : FutureClass) : State :=
  mkState {[ 0%nat := mkFuture c (RAISED (mkException IOError "disk full")) ]}
          {[ "snap1" := 0%nat ]} [] (mkContext None None) [].

(** The [mode] that [Backup] hands to the job. *)
Definition backup_mode (request : BackupRequest.t) : string :=
  if decide (FULL = BackupRequest.mode request)
  then BACKUP_MODE_FULL else BACKUP_MODE_DIFFERENTIAL.

(** The process state when [Backup] returns after a successful submission:
    the future is created and queued, registered under the name, and the
    executor is shut down before the last log line. *)
Definition Backup_ok_state (env : Collaborators) (request : BackupRequest.t) (st : State)
  : State :=
  let st1 := logging.info (format "Performing backup {} (type={})"
               [BackupRequest.name request; Mode_str (BackupRequest.mode request)]) st in
  let l := fresh (dom (heap st)) in
  logging.info (format "Backup {} is in progress" [BackupRequest.name request])
    (ThreadPoolExecutor.shutdown_wait
       (BackupMan.set_backup (BackupRequest.name request) l
          (with_work_queue
             (work_queue st ++
                [mkWorkItem l
                   (handle_backup env (BackupRequest.name request) (backup_mode request))])
             (with_heap (<[l := mkFuture ConcurrentFuture PENDING]> (heap st)) st1)))).

(** The environment of the examples: submission works, the job returns. *)
Definition env_ok : Collaborators :=
  mkCollaborators (λ _ _, None) (λ _ _, JobReturns (Some "stats"))
    (λ _, Raise (mkException KeyError "snap1")) (Ok []) (λ _, Ok ()) (λ _, None).

(** The environment in which the executor cannot schedule the call. *)
Definition env_no_thread : Collaborators :=
  mkCollaborators (λ _ _, Some (mkException RuntimeError "can't start new thread"))
    (λ _ _, JobReturns (Some "stats"))
    (λ _, Raise (mkException KeyError "snap1")) (Ok []) (λ _, Ok ()) (λ _, None).

(** The range of an [int64] field. *)
Definition in_int64 (v : Z) : Prop := - 2 ^ 63 ≤ v < 2 ^ 63.

(** The node row of token-map key [node] with entry [entry], when its
    tokens pass the range check. *)
Definition node_row (node : string) (entry : TokenmapEntry) : BackupNode.t :=
  BackupNode.mk node
    (match dc entry with Some d => d | None => "" end)
    (match rack entry with Some r => r | None => "" end)
    (match tokens entry with Some ts => ts | None => [] end).

(** The summary that one pass appends for [backup], given the value of
    [last_status] on entry and the list that [complete_nodes()] returned. *)
Definition summary_of (backup : ClusterBackup.t) (last_status : BackupMan.Status)
    (complete : list NodeBackup) : BackupSummary.t :=
  BackupSummary.mk (ClusterBackup.name backup)
    (match ClusterBackup.started backup with None => 0 | Some t => t end)
    (match ClusterBackup.finished backup with None => 0 | Some t => t end)
    (match ClusterBackup.finished backup with
     | None => Some BackupMan.IN_PROGRESS
     | Some _ =>
         if decide (last_status ≠ BackupMan.IN_PROGRESS)
         then Some BackupMan.SUCCESS else None
     end)
    (length (ClusterBackup.tokenmap backup))
    (length complete)
    ((λ item, node_row item.1 item.2) <$> ClusterBackup.tokenmap backup).

(** The value of [last_status] after the pass for [backup]. *)
Definition next_status (last_status : BackupMan.Status) (backup : ClusterBackup.t)
  : BackupMan.Status :=
  match ClusterBackup.finished backup with
  | None => BackupMan.IN_PROGRESS
  | Some _ => last_status
  end.

(** A record that one pass of [GetBackups] summarizes without a fault: its
    timestamps fit an [int64] field, its node counts an [int32] field,
    [complete_nodes()] returns, and every token fits an [int64] field. *)
Definition summarizable (backup : ClusterBackup.t) : Prop :=
  in_int64 (match ClusterBackup.started backup with None => 0 | Some t => t end) ∧
  in_int64 (match ClusterBackup.finished backup with None => 0 | Some t => t end) ∧
  Z.of_nat (length (ClusterBackup.tokenmap backup)) < 2 ^ 31 ∧
  (∃ complete, ClusterBackup.complete_nodes backup = Ok complete ∧
     Z.of_nat (length complete) < 2 ^ 31) ∧
  Forall (λ item, Forall in_int64 (match tokens item.2 with Some ts => ts | None => [] end))
    (ClusterBackup.tokenmap backup).

(** The summaries appended up to the first record whose pass raises, and
    that fault. *)
Fixpoint summaries (backups : list ClusterBackup.t) (last_status : BackupMan.Status)
  : list BackupSummary.t :=
  match backups with
  | [] => []
  | backup :: backups' =>
      match summarize backup last_status with
      | Ok (summary, last_status) => summary :: summaries backups' last_status
      | Raise _ => []
      end
  end.

Fixpoint first_fault (backups : list ClusterBackup.t) (last_status : BackupMan.Status)
  : Result unit :=
  match backups with
  | [] => Ok ()
  | backup :: backups' =>
      match summarize backup last_status with
      | Ok (_, last_status) => first_fault backups' last_status
      | Raise e => Raise e
      end
  end.

Definition finish_known (backup : ClusterBackup.t) : bool :=
  bool_decide (is_Some (ClusterBackup.finished backup)).

Definition example_tokenmap : list (string * TokenmapEntry) :=
  [ ("node1", mkTokenmapEntry (Some "dc1") (Some "r1") (Some [1; 2]));
    ("node2", mkTokenmapEntry None None None) ].

Definition record_A : ClusterBackup.t :=
  ClusterBackup.mk "A" (Some 100) (Some 200) example_tokenmap
    (Ok [mkNodeBackup "node1"; mkNodeBackup "node2"]) (Ok []) (Ok []).

Definition record_B : ClusterBackup.t :=
  ClusterBackup.mk "B" None None example_tokenmap
    (Ok [mkNodeBackup "node1"]) (Ok [mkNodeBackup "node2"]) (Ok []).

Definition record_C : ClusterBackup.t :=
  ClusterBackup.mk "C" (Some 500) (Some 600) [] (Ok []) (Ok []) (Ok []).

(** A record whose manifests cannot be read. *)
Definition record_D : ClusterBackup.t :=
  ClusterBackup.mk "D" (Some 700) (Some 800) []
    (Raise (mkException IOError "manifest unreadable"))
    (Raise (mkException IOError "manifest unreadable"))
    (Raise (mkException IOError "manifest unreadable")).

Definition env_listing (records : Result (list ClusterBackup.t)) : Collaborators :=
  mkCollaborators (λ _ _, None) (λ _ _, JobReturns (Some "stats"))
    (λ _, Raise (mkException KeyError "snap1")) records (λ _, Ok ()) (λ _, None).

(** The purge of a name without durable record raises. *)
Definition env_purge (outcome : Result unit) : Collaborators :=
  mkCollaborators (λ _ _, None) (λ _ _, JobReturns (Some "stats"))
    (λ _, Raise (mkException KeyError "ghost")) (Ok []) (λ _, outcome) (λ _, None).

Definition ghost_registered : State :=
  mkState {[ 0%nat := mkFuture ConcurrentFuture (FINISHED (Some "stats")) ]}
          {[ "ghost" := 0%nat ]} [] (mkContext None None) [].

Definition env_storage (lookup : Result ClusterBackup.t) : Collaborators :=
  mkCollaborators (λ _ _, None) (λ _ _, JobReturns (Some "stats"))
    (λ _, lookup) (Ok []) (λ _, Ok ()) (λ _, None).


(** What a handler that only reads the process leaves in place: the
    futures, the registry and the executor's queue. *)
Definition store_kept (st st' : State) : Prop :=
  heap st' = heap st ∧ backups st' = backups st ∧ work_queue st' = work_queue st.

(** As [store_kept], and the context of the call is as it was; the log may
    have grown. *)
Definition only_logged (st st' : State) : Prop :=
  store_kept st st' ∧ context st' = context st.

(** Computation [m] takes related process states to related ones, whatever
    it returns or raises. *)
Definition preserves {R A} (rel : State → State → Prop) (m : M (Frame R) A) : Prop :=
  ∀ st fr, rel st (process fr) → rel st (process (m fr).2).

(** A record that is found, with start timestamp 1000 and no finish
    timestamp, whose node sets cannot be looked up. *)
Definition record_E : ClusterBackup.t :=
  ClusterBackup.mk "E" (Some 1000) None []
    (Raise (mkException KeyError "node1"))
    (Ok []) (Ok []).

(** A readable, unfinished record with one token that no [int64] field
    holds. *)
Definition record_R : ClusterBackup.t :=
  ClusterBackup.mk "R" (Some 300) None
    [ ("node1", mkTokenmapEntry (Some "dc1") (Some "r1") (Some [1; 2 ^ 126])) ]
    (Ok [mkNodeBackup "node1"]) (Ok []) (Ok []).

(** The platform converts timestamps up to the end of year 9999 only. *)
Definition env_platform (lookup : Result ClusterBackup.t) : Collaborators :=
  mkCollaborators (λ _ _, None) (λ _ _, JobReturns (Some "stats"))
    (λ _, lookup) (Ok []) (λ _, Ok ())
    (λ t, if bool_decide (t < 253402300800) then None
          else Some (mkException ValueError "year is out of range")).

(** The job of the request raises. *)
Definition env_job_fails : Collaborators :=
  mkCollaborators (λ _ _, None) (λ _ _, JobRaises (mkException IOError "disk full"))
    (λ _, Ok record_A) (Ok []) (λ _, Ok ()) (λ _, None).

(** Everything works: the job returns, the record is found, the purge
    succeeds. *)
Definition env_all_ok : Collaborators :=
  mkCollaborators (λ _ _, None) (λ _ _, JobReturns (Some "stats"))
    (λ _, Ok record_A) (Ok [record_A; record_B; record_C]) (λ _, Ok ()) (λ _, None).





(** The fault of [response.finishedNodes = [...]], line 136 of the
    source. *)
Definition finishedNodes_refused : PyException :=
  mkException AttributeError
    ("Assignment not allowed to repeated field " +:+ dquote +:+ "finishedNodes"
       +:+ dquote +:+ " in protocol message object.").

(** * Properties *)

(** Unfolds the monad down to pairs and matches. *)
Ltac unfold_monad :=
  unfold serve, try_except, lift, gets, modify, on_process, on_response,
    mbind, mret, M_bind, M_ret, except_Exception, except_KeyError in *.

(** ** The status resolver *)

Lemma handle_backup_status_lookup name st l f :
  backups st !! name = Some l → heap st !! l = Some f →
  handle_backup_status name st =
    if asyncio.isfuture f then
      match fut_state f with
      | PENDING => Ok (Some BackupMan.IN_PROGRESS, None)
      | FINISHED r => Ok (Some BackupMan.SUCCESS, r)
      | RAISED e => Raise e
      | CANCELLED => Ok (Some BackupMan.FAILED, None)
      end
    else Ok (None, None).
Proof.
  intros Hl Hf. unfold handle_backup_status, BackupMan.get_backup_future.
  rewrite Hl. simpl. rewrite Hf.
  unfold future.done, future.cancelled, future.result.
  destruct (asyncio.isfuture f); [|done]. by destruct (fut_state f).
Qed.

Lemma handle_backup_status_absent name st :
  backups st !! name = None → handle_backup_status name st = Ok (None, None).
Proof.
  intros Hl. unfold handle_backup_status, BackupMan.get_backup_future. by rewrite Hl.
Qed.

(** An exception captured in an asyncio future comes out of the resolver. *)
Lemma handle_backup_status_raised name st l f e :
  backups st !! name = Some l → heap st !! l = Some f →
  asyncio.isfuture f = true → fut_state f = RAISED e →
  handle_backup_status name st = Raise e.
Proof.
  intros Hl Hf Hc Hs. rewrite (handle_backup_status_lookup _ _ _ _ Hl Hf), Hc. by rewrite Hs.
Qed.

(** C1 fails on the code: ["snap1"] is present in the registry, registered
    with the finished, not cancelled handle that [Backup] itself stores for
    it, and the resolver answers [(None, None)], the not-found answer, none
    of SUCCESS, IN_PROGRESS, FAILED.  The handle is the executor's future,
    which [asyncio.isfuture] rejects, so the decision tree is not entered. *)
Lemma handle_backup_status_present_unresolved :
  BackupMan.get_backup_future "snap1" snap1_done = Some 0%nat ∧
  heap snap1_done !! 0%nat = Some (mkFuture ConcurrentFuture (FINISHED (Some "stats"))) ∧
  handle_backup_status "snap1" snap1_done = Ok (None, None).
Proof. by vm_compute. Qed.

(** The decision tree of the resolver, entered for asyncio futures only. *)
Lemma handle_backup_status_decision_tree name st :
  (backups st !! name = None → handle_backup_status name st = Ok (None, None)) ∧
  (∀ l f, backups st !! name = Some l → heap st !! l = Some f →
     (asyncio.isfuture f = false → handle_backup_status name st = Ok (None, None)) ∧
     (asyncio.isfuture f = true →
        (∀ r, future.done f = true → future.cancelled f = false → future.result f = Ok r →
           handle_backup_status name st = Ok (Some BackupMan.SUCCESS, r)) ∧
        (future.done f = false → future.cancelled f = false →
           handle_backup_status name st = Ok (Some BackupMan.IN_PROGRESS, None)) ∧
        (future.cancelled f = true →
           handle_backup_status name st = Ok (Some BackupMan.FAILED, None)))).
Proof.
  split; [apply handle_backup_status_absent|].
  intros l f Hl Hf. rewrite (handle_backup_status_lookup _ _ _ _ Hl Hf).
  unfold future.done, future.cancelled, future.result.
  split; intros ->; [done|].
  repeat split; destruct (fut_state f); intros; simplify_eq; done.
Qed.

(** C4 fails on the code: for a registered asyncio future that completed by
    an exception, the resolver takes the first branch (done, not cancelled)
    and [result()] raises the captured exception again, out of the resolver;
    for the executor's future in the same condition it answers
    [(None, None)].  FAILED is returned in neither case. *)
Theorem handle_backup_status_reraises_captured_exception :
  handle_backup_status "snap1" (snap1_raised AsyncioFuture)
    = Raise (mkException IOError "disk full") ∧
  handle_backup_status "snap1" (snap1_raised ConcurrentFuture) = Ok (None, None).
Proof. by vm_compute. Qed.

(** ** The executor *)

Lemma run_work_item_lookup h w l f :
  h !! l = Some f →
  ∃ f', ThreadPoolExecutor.run_work_item h w !! l = Some f' ∧
        fut_class f' = fut_class f ∧
        (future.done f = true → f' = f) ∧
        (l = wi_future w → future.done f' = true).
Proof.
  intros Hf. unfold ThreadPoolExecutor.run_work_item.
  destruct (decide (wi_future w = l)) as [->|Hne].
  - rewrite lookup_alter_eq, Hf. simpl. eexists; split; [done|].
    unfold future.done. destruct (fut_state f) eqn:E; simpl; rewrite ?E; try done.
    by destruct (wi_outcome w).
  - rewrite lookup_alter_ne by done. exists f. naive_solver.
Qed.

Lemma foldl_run_work_item_lookup q : ∀ h l f,
  h !! l = Some f →
  ∃ f', foldl ThreadPoolExecutor.run_work_item h q !! l = Some f' ∧
        fut_class f' = fut_class f ∧
        (future.done f = true → f' = f).
Proof.
  induction q as [|w q IH]; intros h l f Hf; simpl.
  - exists f. done.
  - destruct (run_work_item_lookup h w l f Hf) as (f1 & H1 & Hc1 & Hd1 & _).
    destruct (IH _ _ _ H1) as (f2 & H2 & Hc2 & Hd2).
    exists f2. split; [done|]. split; [congruence|].
    intros Hd. pose proof (Hd1 Hd) as ->. by apply Hd2.
Qed.

Lemma foldl_run_work_item_None q : ∀ h l,
  h !! l = None → foldl ThreadPoolExecutor.run_work_item h q !! l = None.
Proof.
  induction q as [|w q IH]; intros h l Hl; simpl; [done|].
  apply IH. unfold ThreadPoolExecutor.run_work_item.
  destruct (decide (wi_future w = l)) as [->|Hne].
  - by rewrite lookup_alter_eq, Hl.
  - by rewrite lookup_alter_ne.
Qed.

(** Once the executor has been shut down, the future of a call that was
    queued on it is done. *)
Lemma shutdown_wait_done st q w f :
  work_queue st = q ++ [w] → heap st !! wi_future w = Some f →
  ∃ f', heap (ThreadPoolExecutor.shutdown_wait st) !! wi_future w = Some f' ∧
        fut_class f' = fut_class f ∧ future.done f' = true.
Proof.
  intros Hq Hf. unfold ThreadPoolExecutor.shutdown_wait. simpl.
  rewrite Hq, foldl_app. simpl.
  destruct (foldl_run_work_item_lookup q _ _ _ Hf) as (f1 & H1 & Hc1 & _).
  destruct (run_work_item_lookup _ w _ _ H1) as (f2 & H2 & Hc2 & _ & Hd2).
  exists f2. split; [done|]. split; [congruence|]. by apply Hd2.
Qed.

(** ** Backup *)

Lemma Backup_submit_ok env request st :
  submit_fault env (BackupRequest.name request) (backup_mode request) = None →
  serve (Backup env request) BackupResponse.new st =
    (Ok (BackupResponse.mk (BackupRequest.name request) (Some IN_PROGRESS)),
     Backup_ok_state env request st).
Proof.
  intros H. unfold backup_mode, Backup_ok_state in *.
  unfold Backup, ThreadPoolExecutor.with_executor, ThreadPoolExecutor.submit. unfold_monad.
  rewrite H. reflexivity.
Qed.

Lemma Backup_submit_fails env request st e :
  submit_fault env (BackupRequest.name request) (backup_mode request) = Some e →
  serve (Backup env request) BackupResponse.new st =
    (Ok (BackupResponse.mk (BackupRequest.name request) (Some FAILED)),
     logging.exception "backup failed" e
       (set_code grpc.INTERNAL
          (set_details (format "failed to create backups: {}" [exc_str e])
             (ThreadPoolExecutor.shutdown_wait
                (logging.info (format "Performing backup {} (type={})"
                   [BackupRequest.name request; Mode_str (BackupRequest.mode request)]) st))))).
Proof.
  intros H. unfold backup_mode in H.
  unfold Backup, ThreadPoolExecutor.with_executor, ThreadPoolExecutor.submit. unfold_monad.
  rewrite H. reflexivity.
Qed.

Lemma fresh_loc_unused (st : State) : heap st !! fresh (dom (heap st)) = None.
Proof. apply not_elem_of_dom, is_fresh. Qed.

(** Whenever [Backup] returns after a successful submission, the handle it
    registered is already done: leaving the [with] block has waited for the
    worker. *)
Lemma Backup_returns_after_job env request st :
  submit_fault env (BackupRequest.name request) (backup_mode request) = None →
  ∃ f, heap (Backup_ok_state env request st) !! fresh (dom (heap st)) = Some f ∧
       fut_class f = ConcurrentFuture ∧ future.done f = true.
Proof.
  intros _. unfold Backup_ok_state. cbn zeta.
  set (l := fresh (dom (heap st))).
  set (w := mkWorkItem l (handle_backup env (BackupRequest.name request) (backup_mode request))).
  match goal with |- context [ThreadPoolExecutor.shutdown_wait ?s] => set (s0 := s) end.
  destruct (shutdown_wait_done s0 (work_queue st) w (mkFuture ConcurrentFuture PENDING))
    as (f' & H1 & H2 & H3).
  - reflexivity.
  - subst s0. simpl. apply lookup_insert_eq.
  - exists f'. done.
Qed.

(** C2 fails on the code: [Backup("snap1", FULL)] answers IN_PROGRESS, and in
    the state in which the handler returns the registered handle is already
    finished with the job's result and no work is left queued: the [with]
    block's exit, [shutdown(wait=True)], has waited for the job. *)
Theorem Backup_blocks_until_job_completes :
  let '(resp, st') :=
    serve (Backup env_ok (BackupRequest.mk "snap1" FULL)) BackupResponse.new idle in
  resp = Ok (BackupResponse.mk "snap1" (Some IN_PROGRESS)) ∧
  BackupMan.get_backup_future "snap1" st' = Some 0%nat ∧
  heap st' !! 0%nat = Some (mkFuture ConcurrentFuture (FINISHED (Some "stats"))) ∧
  work_queue st' = [].
Proof. by vm_compute. Qed.

(** The state that [Backup] leaves is the one of the C1 counterexample. *)
Lemma snap1_done_reached :
  let st' := (serve (Backup env_ok (BackupRequest.mk "snap1" FULL)) BackupResponse.new idle).2 in
  heap st' = heap snap1_done ∧ backups st' = backups snap1_done.
Proof. by vm_compute. Qed.

(** C5: when the submission succeeds, [Backup] returns the response
    [{backupName: name, status: IN_PROGRESS}], and in the state in which it
    returns the registry maps the request's name to the handle that the
    submission created (a new [concurrent.futures.Future]); the other
    entries of the registry are as before. *)
Theorem Backup_registers_and_acknowledges env request st :
  submit_fault env (BackupRequest.name request) (backup_mode request) = None →
  ∃ st' l,
    serve (Backup env request) BackupResponse.new st =
      (Ok (BackupResponse.mk (BackupRequest.name request) (Some IN_PROGRESS)), st') ∧
    heap st !! l = None ∧
    BackupMan.get_backup_future (BackupRequest.name request) st' = Some l ∧
    (∃ f, heap st' !! l = Some f ∧ fut_class f = ConcurrentFuture) ∧
    (∀ other, other ≠ BackupRequest.name request →
       BackupMan.get_backup_future other st' = BackupMan.get_backup_future other st) ∧
    context st' = context st.
Proof.
  intros H. exists (Backup_ok_state env request st), (fresh (dom (heap st))).
  split; [by apply Backup_submit_ok|].
  split; [apply fresh_loc_unused|].
  split; [apply lookup_insert_eq|].
  split.
  { destruct (Backup_returns_after_job env request st H) as (f & ? & ? & _). eauto. }
  split; [|done].
  intros other Hne. unfold BackupMan.get_backup_future. simpl. by rewrite lookup_insert_ne.
Qed.

Lemma Backup_registers_and_acknowledges_witness :
  ∃ st' l,
    serve (Backup env_ok (BackupRequest.mk "snap1" FULL)) BackupResponse.new idle =
      (Ok (BackupResponse.mk "snap1" (Some IN_PROGRESS)), st') ∧
    heap idle !! l = None ∧
    BackupMan.get_backup_future "snap1" st' = Some l ∧
    (∃ f, heap st' !! l = Some f ∧ fut_class f = ConcurrentFuture) ∧
    (∀ other, other ≠ "snap1" →
       BackupMan.get_backup_future other st' = BackupMan.get_backup_future other idle) ∧
    context st' = context idle.
Proof.
  apply (Backup_registers_and_acknowledges env_ok (BackupRequest.mk "snap1" FULL) idle).
  reflexivity.
Defined.

(** C9: when the submission raises, [Backup] returns normally (the fault
    does not leave the handler), the response has status FAILED, the context
    carries the code INTERNAL and the fault's text, the fault is logged by
    [logging.exception], and nothing is registered. *)
Theorem Backup_submission_failure env request st e :
  submit_fault env (BackupRequest.name request) (backup_mode request) = Some e →
  ∃ st',
    serve (Backup env request) BackupResponse.new st =
      (Ok (BackupResponse.mk (BackupRequest.name request) (Some FAILED)), st') ∧
    code (context st') = Some grpc.INTERNAL ∧
    details (context st') = Some (format "failed to create backups: {}" [exc_str e]) ∧
    log st' = log st ++
      [LogInfo (format "Performing backup {} (type={})"
         [BackupRequest.name request; Mode_str (BackupRequest.mode request)]);
       LogException "backup failed" e] ∧
    backups st' = backups st.
Proof.
  intros H. eexists. split; [by apply Backup_submit_fails|].
  simpl. by rewrite <- app_assoc.
Qed.

Lemma Backup_submission_failure_witness :
  ∃ st',
    serve (Backup env_no_thread (BackupRequest.mk "snap1" FULL)) BackupResponse.new idle =
      (Ok (BackupResponse.mk "snap1" (Some FAILED)), st') ∧
    code (context st') = Some grpc.INTERNAL ∧
    details (context st') = Some "failed to create backups: can't start new thread" ∧
    log st' =
      [LogInfo "Performing backup snap1 (type=1)";
       LogException "backup failed" (mkException RuntimeError "can't start new thread")] ∧
    backups st' = backups idle.
Proof.
  apply (Backup_submission_failure env_no_thread (BackupRequest.mk "snap1" FULL) idle
           (mkException RuntimeError "can't start new thread")).
  reflexivity.
Defined.

(** ** GetBackups: what one pass of the loop builds *)

Lemma int64_ok v : in_int64 v → int64 v = Ok v.
Proof. intros H. unfold int64. by rewrite bool_decide_eq_true_2. Qed.

Lemma int64_inv v v' : int64 v = Ok v' → in_int64 v ∧ v' = v.
Proof. unfold int64. case_bool_decide; intros Heq; by simplify_eq. Qed.

Lemma int32_ok n : Z.of_nat n < 2 ^ 31 → int32 n = Ok n.
Proof. intros H. unfold int32. by rewrite bool_decide_eq_true_2. Qed.

Lemma int32_inv n n' : int32 n = Ok n' → Z.of_nat n < 2 ^ 31 ∧ n' = n.
Proof. unfold int32. case_bool_decide; intros Heq; by simplify_eq. Qed.

Lemma mapM_int64_ok ts : Forall in_int64 ts → mapM int64 ts = Ok ts.
Proof.
  induction 1 as [|t ts Ht _ IH]; [done|].
  simpl. by rewrite (int64_ok _ Ht), IH.
Qed.

Lemma mapM_int64_inv ts : ∀ ts', mapM int64 ts = Ok ts' → Forall in_int64 ts ∧ ts' = ts.
Proof.
  induction ts as [|t ts IH]; intros ts' H; simpl in H.
  - unfold mret, Result_ret in H. simplify_eq. by split.
  - destruct (int64 t) as [t'|] eqn:Ht; [|done].
    destruct (mapM int64 ts) as [ts0|] eqn:Hts; [|done].
    apply int64_inv in Ht as [Ht ->]. destruct (IH _ eq_refl) as [Hts' ->].
    simpl in H. unfold mret, Result_ret in H. simplify_eq. by split; [constructor|].
Qed.

Lemma tokenmap_node_ok node entry :
  Forall in_int64 (match tokens entry with Some ts => ts | None => [] end) →
  tokenmap_node node entry = Ok (node_row node entry).
Proof.
  intros H. unfold tokenmap_node, node_row.
  destruct (tokens entry) as [ts|]; [|done]. by rewrite (mapM_int64_ok _ H).
Qed.

Lemma tokenmap_node_inv node entry row :
  tokenmap_node node entry = Ok row →
  Forall in_int64 (match tokens entry with Some ts => ts | None => [] end) ∧
  row = node_row node entry.
Proof.
  unfold tokenmap_node, node_row.
  destruct (tokens entry) as [ts|]; [|intros H; simpl in H; by simplify_eq].
  destruct (mapM int64 ts) as [ts'|] eqn:Hts; [|done].
  apply mapM_int64_inv in Hts as [Hts ->]. intros H. simpl in H. by simplify_eq.
Qed.

Lemma node_rows_ok (tm : list (string * TokenmapEntry)) :
  Forall (λ item, Forall in_int64 (match tokens item.2 with Some ts => ts | None => [] end)) tm →
  mapM (λ item, tokenmap_node item.1 item.2) tm = Ok ((λ item, node_row item.1 item.2) <$> tm).
Proof.
  induction 1 as [|item tm Hitem _ IH]; [done|].
  simpl. by rewrite (tokenmap_node_ok _ _ Hitem), IH.
Qed.

Lemma node_rows_inv (tm : list (string * TokenmapEntry)) : ∀ rows,
  mapM (λ item, tokenmap_node item.1 item.2) tm = Ok rows →
  Forall (λ item, Forall in_int64 (match tokens item.2 with Some ts => ts | None => [] end)) tm ∧
  rows = (λ item, node_row item.1 item.2) <$> tm.
Proof.
  induction tm as [|item tm IH]; intros rows H; simpl in H.
  - unfold mret, Result_ret in H. simplify_eq. by split.
  - destruct (tokenmap_node item.1 item.2) as [row|] eqn:Hrow; [|done].
    destruct (mapM _ tm) as [rows0|] eqn:Hrows; [|done].
    apply tokenmap_node_inv in Hrow as [Hrow ->]. destruct (IH _ eq_refl) as [Htm ->].
    simpl in H. unfold mret, Result_ret in H. simplify_eq. by split; [constructor|].
Qed.

(** A summarizable record is summarized, with the fields of [summary_of]. *)
Lemma summarize_ok b ls :
  summarizable b →
  ∃ complete, ClusterBackup.complete_nodes b = Ok complete ∧
    summarize b ls = Ok (summary_of b ls complete, next_status ls b).
Proof.
  intros (Hs & Hf & Ht & (c & Hc & Hlen) & Hrows). exists c. split; [done|].
  unfold summarize, summary_of, next_status.
  rewrite (int32_ok _ Ht), Hc, (node_rows_ok _ Hrows).
  destruct (ClusterBackup.started b), (ClusterBackup.finished b);
    rewrite ?(int64_ok _ Hs), ?(int64_ok _ Hf), ?(int64_ok 0) by (unfold in_int64; lia);
    simpl; rewrite (int32_ok _ Hlen); reflexivity.
Qed.

(** What a pass returns is the summary of a summarizable record. *)
Lemma summarize_inv b ls s ls' :
  summarize b ls = Ok (s, ls') →
  summarizable b ∧
  ∃ complete, ClusterBackup.complete_nodes b = Ok complete ∧
    s = summary_of b ls complete ∧ ls' = next_status ls b.
Proof.
  unfold summarize, summarizable, summary_of, next_status.
  intros H.
  destruct (match ClusterBackup.started b with
            | Some t => int64 t | None => int64 0 end) as [t0|] eqn:Hs; [|done].
  assert (Hs' : in_int64 (match ClusterBackup.started b with None => 0 | Some t => t end)
                ∧ t0 = match ClusterBackup.started b with None => 0 | Some t => t end).
  { destruct (ClusterBackup.started b); by apply int64_inv in Hs. }
  destruct Hs' as [Hs1 ->]. simpl in H.
  destruct (match ClusterBackup.finished b with
            | Some t => _ | None => _ end) as [[[ft status] ls0]|] eqn:Hf; [|done].
  simpl in H.
  destruct (int32 (length (ClusterBackup.tokenmap b))) as [n|] eqn:Hn; [|done].
  apply int32_inv in Hn as [Hn ->]. simpl in H.
  destruct (ClusterBackup.complete_nodes b) as [c|] eqn:Hc; [|done]. simpl in H.
  destruct (int32 (length c)) as [m|] eqn:Hm; [|done].
  apply int32_inv in Hm as [Hm ->]. simpl in H.
  destruct (mapM _ (ClusterBackup.tokenmap b)) as [rows|] eqn:Hrows; [|done].
  apply node_rows_inv in Hrows as [Hrows ->]. simpl in H.
  destruct (ClusterBackup.finished b) as [t|].
  - destruct (int64 t) as [t'|] eqn:Hft; [|done]. apply int64_inv in Hft as [Hft ->].
    simpl in Hf. simplify_eq. split; [by eauto 10|]. by exists c.
  - destruct (int64 0) as [t'|] eqn:Hft; [|done]. apply int64_inv in Hft as [Hft ->].
    simpl in Hf. simplify_eq. split; [by eauto 10|]. by exists c.
Qed.

(** The fault of a pass does not depend on the rolling flag. *)
Lemma summarize_fault_any_flag b ls ls' e :
  summarize b ls = Raise e → summarize b ls' = Raise e.
Proof.
  unfold summarize.
  destruct (match ClusterBackup.started b with
            | Some t => int64 t | None => int64 0 end); [|done]. simpl.
  destruct (ClusterBackup.finished b) as [t|].
  - destruct (int64 t); [|done]. simpl.
    destruct (int32 _); [|done]. simpl. destruct (ClusterBackup.complete_nodes b); [|done].
    simpl. destruct (int32 _); [|done]. simpl. by destruct (mapM _ _).
  - destruct (int64 0); [|done]. simpl.
    destruct (int32 _); [|done]. simpl. destruct (ClusterBackup.complete_nodes b); [|done].
    simpl. destruct (int32 _); [|done]. simpl. by destruct (mapM _ _).
Qed.

Lemma GetBackups_loop_spec bs : ∀ ls fr,
  GetBackups_loop bs ls fr =
    (first_fault bs ls,
     mkFrame (process fr)
       (GetBackupsResponse.mk (GetBackupsResponse.backups (response fr) ++ summaries bs ls))).
Proof.
  induction bs as [|b bs IH]; intros ls fr; simpl.
  - unfold_monad. rewrite app_nil_r. by destruct fr as [p [r]].
  - unfold_monad. destruct (summarize b ls) as [[s ls']|e]; simpl.
    + rewrite IH. simpl. unfold GetBackupsResponse.append. simpl.
      by rewrite <- app_assoc.
    + rewrite app_nil_r. by destruct fr as [p [r]].
Qed.

Lemma GetBackups_listing_fails env st e :
  get_backups env = Raise e →
  serve (GetBackups env) GetBackupsResponse.new st =
    (Ok (GetBackupsResponse.mk []),
     set_code grpc.INTERNAL (set_details (format "failed to get backups: {}" [exc_str e]) st)).
Proof. intros H. unfold GetBackups. unfold_monad. by rewrite H. Qed.

Lemma GetBackups_listed env st bs :
  get_backups env = Ok bs →
  serve (GetBackups env) GetBackupsResponse.new st =
    (Ok (GetBackupsResponse.mk (summaries bs BackupMan.SUCCESS)),
     match first_fault bs BackupMan.SUCCESS with
     | Ok _ => st
     | Raise e =>
         set_code grpc.INTERNAL (set_details (format "failed to get backups: {}" [exc_str e]) st)
     end).
Proof.
  intros H. unfold GetBackups. unfold_monad. rewrite H, GetBackups_loop_spec.
  by destruct (first_fault bs BackupMan.SUCCESS).
Qed.

Lemma first_fault_summarizable bs : ∀ ls,
  Forall summarizable bs → first_fault bs ls = Ok ().
Proof.
  intros ls H. revert ls. induction H as [|b bs Hb _ IH]; intros ls; simpl; [done|].
  destruct (summarize_ok b ls Hb) as (c & _ & ->). apply IH.
Qed.

Lemma first_fault_at pre b post e ls0 : ∀ ls,
  Forall summarizable pre → summarize b ls0 = Raise e →
  first_fault (pre ++ b :: post) ls = Raise e.
Proof.
  intros ls Hpre Hb. revert ls. induction Hpre as [|b' pre Hb' _ IH]; intros ls; simpl.
  - by rewrite (summarize_fault_any_flag _ _ ls _ Hb).
  - destruct (summarize_ok b' ls Hb') as (c & _ & ->). apply IH.
Qed.

Lemma summaries_stop_at pre b post e ls0 : ∀ ls,
  Forall summarizable pre → summarize b ls0 = Raise e →
  summaries (pre ++ b :: post) ls = summaries pre ls.
Proof.
  intros ls Hpre Hb. revert ls. induction Hpre as [|b' pre Hb' _ IH]; intros ls; simpl.
  - by rewrite (summarize_fault_any_flag _ _ ls _ Hb).
  - destruct (summarize_ok b' ls Hb') as (c & _ & ->). by rewrite IH.
Qed.

Lemma summaries_names bs : ∀ ls,
  Forall summarizable bs →
  BackupSummary.backupName <$> summaries bs ls = ClusterBackup.name <$> bs.
Proof.
  intros ls Hbs. revert ls. induction Hbs as [|b bs Hb _ IH]; intros ls; simpl; [done|].
  destruct (summarize_ok b ls Hb) as (c & _ & ->). simpl. by rewrite IH.
Qed.

(** The summary at position [i] is the one of the record at position [i],
    built with the flag as the records before it left it. *)
Lemma summaries_at bs : ∀ ls i b s,
  bs !! i = Some b → summaries bs ls !! i = Some s →
  ∃ complete, ClusterBackup.complete_nodes b = Ok complete ∧
    s = summary_of b (foldl next_status ls (take i bs)) complete.
Proof.
  induction bs as [|b' bs IH]; intros ls i b s Hb Hs; [done|].
  simpl in Hs. destruct (summarize b' ls) as [[s' ls']|e] eqn:Hsum; [|done].
  apply summarize_inv in Hsum as (_ & c & Hc & -> & ->).
  destruct i as [|i]; simpl in *.
  - simplify_eq. by exists c.
  - by apply IH.
Qed.

Lemma foldl_next_status bs : ∀ ls,
  foldl next_status ls bs = if forallb finish_known bs then ls else BackupMan.IN_PROGRESS.
Proof.
  induction bs as [|b bs IH]; intros ls; simpl; [done|].
  rewrite IH. unfold next_status, finish_known.
  destruct (ClusterBackup.finished b); simpl; [done|].
  by destruct (forallb _ bs).
Qed.

(** Proves [summarizable] for a concrete record. *)
Ltac solve_summarizable :=
  unfold summarizable, in_int64; simpl;
  repeat match goal with
         | |- _ ∧ _ => split
         | |- ∃ _, _ = _ ∧ _ => eexists; split; [reflexivity|]
         | |- Forall _ _ => constructor
         end; simpl; try lia.

(** ** GetBackups: failure while summarizing *)

(** C3, as stated, fails: the listing returns [A; D; C], summarizing [D]
    raises, and the handler signals INTERNAL and returns a response that
    still holds the summary built for [A]. *)
Lemma GetBackups_returns_partial_list :
  let '(resp, st') :=
    serve (GetBackups (env_listing (Ok [record_A; record_D; record_C])))
      GetBackupsResponse.new idle in
  code (context st') = Some grpc.INTERNAL ∧
  details (context st') = Some "failed to get backups: manifest unreadable" ∧
  ∃ resp', resp = Ok resp' ∧
    BackupSummary.backupName <$> GetBackupsResponse.backups resp' = ["A"] ∧
    BackupSummary.status <$> GetBackupsResponse.backups resp' = [Some BackupMan.SUCCESS].
Proof. vm_compute. repeat split. eexists. repeat split. Qed.

(** C3 (amended): when listing or summarizing fails, [GetBackups] signals
    the internal error (code INTERNAL, the fault's text as details) and
    returns the response object as built so far: empty when the listing
    itself fails; when the pass for a record raises, whatever raises in it
    ([complete_nodes()], or protobuf refusing a timestamp, a count or a
    token that is out of the field's range), the summaries of the records
    before it, exactly as a call that lists only those records returns
    them. *)
Theorem GetBackups_failure_returns_built_summaries env st :
  (∀ e, get_backups env = Raise e →
     serve (GetBackups env) GetBackupsResponse.new st =
       (Ok (GetBackupsResponse.mk []),
        set_code grpc.INTERNAL
          (set_details (format "failed to get backups: {}" [exc_str e]) st))) ∧
  (∀ pre b post e last_status,
     get_backups env = Ok (pre ++ b :: post) →
     Forall summarizable pre → summarize b last_status = Raise e →
     ∃ resp,
       serve (GetBackups env) GetBackupsResponse.new st =
         (Ok resp,
          set_code grpc.INTERNAL
            (set_details (format "failed to get backups: {}" [exc_str e]) st)) ∧
       BackupSummary.backupName <$> GetBackupsResponse.backups resp
         = ClusterBackup.name <$> pre ∧
       serve (GetBackups (env_listing (Ok pre))) GetBackupsResponse.new st = (Ok resp, st)).
Proof.
  split; [apply GetBackups_listing_fails|].
  intros pre b post e ls0 Hlist Hpre Hb.
  exists (GetBackupsResponse.mk (summaries pre BackupMan.SUCCESS)).
  split; [|split].
  - rewrite (GetBackups_listed _ _ _ Hlist).
    by rewrite (summaries_stop_at _ _ _ _ _ _ Hpre Hb), (first_fault_at _ _ _ _ _ _ Hpre Hb).
  - by apply summaries_names.
  - rewrite (GetBackups_listed _ _ pre) by done. by rewrite first_fault_summarizable.
Qed.

Lemma GetBackups_failure_returns_built_summaries_witness :
  serve (GetBackups (env_listing (Raise (mkException IOError "bucket unreachable"))))
    GetBackupsResponse.new idle =
    (Ok (GetBackupsResponse.mk []),
     set_code grpc.INTERNAL (set_details "failed to get backups: bucket unreachable" idle)) ∧
  (∃ resp,
     serve (GetBackups (env_listing (Ok [record_A; record_D; record_C])))
       GetBackupsResponse.new idle =
       (Ok resp,
        set_code grpc.INTERNAL (set_details "failed to get backups: manifest unreadable" idle)) ∧
     BackupSummary.backupName <$> GetBackupsResponse.backups resp = ["A"] ∧
     serve (GetBackups (env_listing (Ok [record_A]))) GetBackupsResponse.new idle
       = (Ok resp, idle)) ∧
  (∃ resp,
     serve (GetBackups (env_listing (Ok [record_A; record_R; record_D])))
       GetBackupsResponse.new idle =
       (Ok resp,
        set_code grpc.INTERNAL
          (set_details
             "failed to get backups: Value out of range: 85070591730234615865843651857942052864"
             idle)) ∧
     BackupSummary.backupName <$> GetBackupsResponse.backups resp = ["A"] ∧
     serve (GetBackups (env_listing (Ok [record_A]))) GetBackupsResponse.new idle
       = (Ok resp, idle)).
Proof.
  split; [|split].
  - apply (proj1 (GetBackups_failure_returns_built_summaries
             (env_listing (Raise (mkException IOError "bucket unreachable"))) idle)
             (mkException IOError "bucket unreachable")).
    reflexivity.
  - apply (proj2 (GetBackups_failure_returns_built_summaries
             (env_listing (Ok [record_A; record_D; record_C])) idle)
             [record_A] record_D [record_C] (mkException IOError "manifest unreadable")
             BackupMan.SUCCESS).
    + reflexivity.
    + constructor; [solve_summarizable|constructor].
    + reflexivity.
  - apply (proj2 (GetBackups_failure_returns_built_summaries
             (env_listing (Ok [record_A; record_R; record_D])) idle)
             [record_A] record_R [record_D]
             (mkException ValueError
                "Value out of range: 85070591730234615865843651857942052864")
             BackupMan.SUCCESS).
    + reflexivity.
    + constructor; [solve_summarizable|constructor].
    + vm_compute. reflexivity.
Defined.

(** ** GetBackups: the rolling status *)

(** C6: the statuses that [GetBackups] assigns depend on the order of the
    records.  [last_status] starts as SUCCESS; a record without finish
    timestamp is marked IN_PROGRESS (and sets the flag); a record with one is
    marked SUCCESS when no record before it lacked its finish timestamp, and
    is left without status otherwise.  When every record is summarized
    (none of its values is refused by a protobuf field and
    [complete_nodes()] returns) there is one summary per record and no error
    is signalled; in particular [A(finished), B(unfinished), C(finished)]
    get [SUCCESS, IN_PROGRESS, unassigned]. *)
Theorem GetBackups_rollup_order_dependent env st bs :
  get_backups env = Ok bs →
  ∃ resp st',
    serve (GetBackups env) GetBackupsResponse.new st = (Ok resp, st') ∧
    (∀ i b s,
       bs !! i = Some b → GetBackupsResponse.backups resp !! i = Some s →
       BackupSummary.status s =
         match ClusterBackup.finished b with
         | None => Some BackupMan.IN_PROGRESS
         | Some _ =>
             if forallb finish_known (take i bs)
             then Some BackupMan.SUCCESS else None
         end) ∧
    (Forall summarizable bs →
       st' = st ∧ length (GetBackupsResponse.backups resp) = length bs) ∧
    (∀ A B C,
       bs = [A; B; C] → Forall summarizable bs →
       is_Some (ClusterBackup.finished A) →
       ClusterBackup.finished B = None →
       is_Some (ClusterBackup.finished C) →
       BackupSummary.status <$> GetBackupsResponse.backups resp
         = [Some BackupMan.SUCCESS; Some BackupMan.IN_PROGRESS; None]).
Proof.
  intros Hlist.
  eexists (GetBackupsResponse.mk (summaries bs BackupMan.SUCCESS)), _.
  split; [by apply GetBackups_listed|].
  split; [|split].
  - intros i b s Hb Hs.
    destruct (summaries_at bs BackupMan.SUCCESS i b s Hb Hs) as (c & _ & ->).
    simpl. rewrite foldl_next_status.
    destruct (ClusterBackup.finished b); [|done]. by destruct (forallb _ _).
  - intros Hbs. rewrite first_fault_summarizable by done. split; [done|]. simpl.
    rewrite <- (length_fmap BackupSummary.backupName), summaries_names by done.
    by rewrite length_fmap.
  - intros A B C -> Hbs [a Ha] HB [c Hc]. simpl.
    apply Forall_cons in Hbs as [HA Hbs].
    apply Forall_cons in Hbs as [HB' Hbs].
    apply Forall_cons in Hbs as [HC _].
    destruct (summarize_ok A BackupMan.SUCCESS HA) as (ca & _ & ->). simpl.
    destruct (summarize_ok B (next_status BackupMan.SUCCESS A) HB') as (cb & _ & ->). simpl.
    destruct (summarize_ok C (next_status (next_status BackupMan.SUCCESS A) B) HC)
      as (cc & _ & ->). simpl.
    unfold next_status. rewrite Ha, HB, Hc. reflexivity.
Qed.

Lemma GetBackups_rollup_order_dependent_witness :
  ∃ resp,
    serve (GetBackups (env_listing (Ok [record_A; record_B; record_C])))
      GetBackupsResponse.new idle = (Ok resp, idle) ∧
    BackupSummary.status <$> GetBackupsResponse.backups resp
      = [Some BackupMan.SUCCESS; Some BackupMan.IN_PROGRESS; None].
Proof.
  destruct (GetBackups_rollup_order_dependent
              (env_listing (Ok [record_A; record_B; record_C])) idle
              [record_A; record_B; record_C])
    as (resp & st' & Hrun & _ & Hall & Hscenario); [reflexivity|].
  assert (Hok : Forall summarizable [record_A; record_B; record_C])
    by (repeat (constructor; [solve_summarizable|]); constructor).
  exists resp. split.
  - destruct (Hall Hok) as [-> _]. exact Hrun.
  - apply (Hscenario record_A record_B record_C);
      [reflexivity|exact Hok| |reflexivity|].
    + exists 200. reflexivity.
    + exists 600. reflexivity.
Defined.

(** ** GetBackups: the fields of a summary *)

(** C7: the summary that [GetBackups] builds for record [b] (the one at
    [b]'s position in the response) has [b]'s name; [startTime] is 0 when
    [b] has no start timestamp and the timestamp otherwise; without finish
    timestamp [finishTime] is 0 and the status is IN_PROGRESS, with one
    [finishTime] is that timestamp; [totalNodes] is the size of the token
    map and [finishedNodes] the size of what [complete_nodes()] returned;
    there is one node row per token-map entry, in the token map's order,
    with the key as host, empty strings for a missing datacenter or rack
    and no tokens for a missing token list.  When every record is
    summarized (none of its values is refused by a protobuf field and
    [complete_nodes()] returns), every record has its summary. *)
Theorem GetBackups_summary_fields env st bs :
  get_backups env = Ok bs →
  ∃ resp st',
    serve (GetBackups env) GetBackupsResponse.new st = (Ok resp, st') ∧
    (Forall summarizable bs →
       st' = st ∧ length (GetBackupsResponse.backups resp) = length bs) ∧
    ∀ i b s,
      bs !! i = Some b → GetBackupsResponse.backups resp !! i = Some s →
      BackupSummary.backupName s = ClusterBackup.name b ∧
      BackupSummary.startTime s =
        match ClusterBackup.started b with None => 0 | Some t => t end ∧
      (ClusterBackup.finished b = None →
         BackupSummary.finishTime s = 0 ∧
         BackupSummary.status s = Some BackupMan.IN_PROGRESS) ∧
      (∀ t, ClusterBackup.finished b = Some t → BackupSummary.finishTime s = t) ∧
      BackupSummary.totalNodes s = length (ClusterBackup.tokenmap b) ∧
      (∃ complete,
         ClusterBackup.complete_nodes b = Ok complete ∧
         BackupSummary.finishedNodes s = length complete) ∧
      BackupSummary.nodes s =
        (λ item,
           BackupNode.mk item.1
             (match dc item.2 with Some d => d | None => "" end)
             (match rack item.2 with Some r => r | None => "" end)
             (match tokens item.2 with Some ts => ts | None => [] end))
        <$> ClusterBackup.tokenmap b.
Proof.
  intros Hlist.
  eexists (GetBackupsResponse.mk (summaries bs BackupMan.SUCCESS)), _.
  split; [by apply GetBackups_listed|].
  split.
  { intros Hbs. rewrite first_fault_summarizable by done. split; [done|]. simpl.
    rewrite <- (length_fmap BackupSummary.backupName), summaries_names by done.
    by rewrite length_fmap. }
  intros i b s Hb Hs.
  destruct (summaries_at bs BackupMan.SUCCESS i b s Hb Hs) as (c & Hc & ->).
  simpl.
  split; [done|]. split; [done|].
  split; [by intros ->|]. split; [by intros t ->|].
  split; [done|]. split; [by exists c|]. done.
Qed.

Lemma GetBackups_summary_fields_witness :
  ∃ resp,
    serve (GetBackups (env_listing (Ok [record_A; record_B])))
      GetBackupsResponse.new idle = (Ok resp, idle) ∧
    ∃ s,
      GetBackupsResponse.backups resp !! 1%nat = Some s ∧
      BackupSummary.backupName s = "B" ∧
      BackupSummary.startTime s = 0 ∧
      BackupSummary.finishTime s = 0 ∧
      BackupSummary.status s = Some BackupMan.IN_PROGRESS ∧
      BackupSummary.totalNodes s = 2%nat ∧
      BackupSummary.finishedNodes s = 1%nat ∧
      BackupSummary.nodes s =
        [BackupNode.mk "node1" "dc1" "r1" [1; 2]; BackupNode.mk "node2" "" "" []].
Proof.
  destruct (GetBackups_summary_fields (env_listing (Ok [record_A; record_B])) idle
              [record_A; record_B]) as (resp & st' & Hrun & Hall & Hfields);
    [reflexivity|].
  destruct Hall as [-> Hlen];
    [repeat (constructor; [solve_summarizable|]); constructor|].
  exists resp. split; [exact Hrun|].
  destruct (GetBackupsResponse.backups resp) as [|s0 [|s [|]]] eqn:Hresp;
    simpl in Hlen; try discriminate Hlen.
  exists s. split; [reflexivity|].
  destruct (Hfields 1%nat record_B s) as
    (Hname & Hstart & Hunfinished & _ & Htotal & (c & Hc & Hdone) & Hrows);
    [reflexivity|reflexivity|].
  split; [exact Hname|]. split; [exact Hstart|].
  destruct Hunfinished as [Hfin Hstatus]; [reflexivity|].
  split; [exact Hfin|]. split; [exact Hstatus|].
  split; [exact Htotal|].
  split.
  - rewrite Hdone. injection Hc as <-. reflexivity.
  - exact Hrows.
Defined.

(** ** DeleteBackup *)

(** C8: when the purge raises, [DeleteBackup] signals INTERNAL with the
    fault's text, logs the fault, and leaves the registry (and the futures)
    as they were; when the purge succeeds, the entry of the request's name
    is removed from the registry, the other entries stay, and no error is
    signalled.  The response is returned in both cases. *)
Theorem DeleteBackup_registry_on_purge_outcome env request st :
  (∀ e, delete_backup env [DeleteBackupRequest.name request] = Raise e →
     ∃ st',
       serve (DeleteBackup env request) DeleteBackupResponse.new st
         = (Ok DeleteBackupResponse.new, st') ∧
       backups st' = backups st ∧ heap st' = heap st ∧
       code (context st') = Some grpc.INTERNAL ∧
       details (context st') = Some (format "deleting backups failed: {}" [exc_str e]) ∧
       log st' = log st ++
         [LogInfo (format "Deleting backup {}" [DeleteBackupRequest.name request]);
          LogException
            (format "Deleting backup {} failed" [DeleteBackupRequest.name request]) e]) ∧
  (delete_backup env [DeleteBackupRequest.name request] = Ok () →
     ∃ st',
       serve (DeleteBackup env request) DeleteBackupResponse.new st
         = (Ok DeleteBackupResponse.new, st') ∧
       backups st' = delete (DeleteBackupRequest.name request) (backups st) ∧
       BackupMan.get_backup_future (DeleteBackupRequest.name request) st' = None ∧
       (∀ other, other ≠ DeleteBackupRequest.name request →
          BackupMan.get_backup_future other st' = BackupMan.get_backup_future other st) ∧
       context st' = context st).
Proof.
  split.
  - intros e H. eexists. split.
    + unfold DeleteBackup. unfold_monad. rewrite H. reflexivity.
    + simpl. by rewrite <- app_assoc.
  - intros H. eexists. split.
    + unfold DeleteBackup. unfold_monad. rewrite H. reflexivity.
    + simpl. unfold BackupMan.get_backup_future. simpl.
      split; [done|]. split; [apply lookup_delete_eq|]. split; [|done].
      intros other Hne. by rewrite lookup_delete_ne.
Qed.

Lemma DeleteBackup_registry_on_purge_outcome_witness :
  (∃ st',
     serve (DeleteBackup (env_purge (Raise (mkException KeyError "ghost")))
              (DeleteBackupRequest.mk "ghost")) DeleteBackupResponse.new ghost_registered
       = (Ok DeleteBackupResponse.new, st') ∧
     BackupMan.get_backup_future "ghost" st' = Some 0%nat ∧
     code (context st') = Some grpc.INTERNAL) ∧
  (∃ st',
     serve (DeleteBackup (env_purge (Ok ()))
              (DeleteBackupRequest.mk "ghost")) DeleteBackupResponse.new ghost_registered
       = (Ok DeleteBackupResponse.new, st') ∧
     BackupMan.get_backup_future "ghost" st' = None ∧
     code (context st') = None).
Proof.
  split.
  - destruct (proj1 (DeleteBackup_registry_on_purge_outcome
                       (env_purge (Raise (mkException KeyError "ghost")))
                       (DeleteBackupRequest.mk "ghost") ghost_registered)
                (mkException KeyError "ghost"))
      as (st' & Hrun & Hreg & _ & Hcode & _); [reflexivity|].
    exists st'. split; [exact Hrun|]. split; [|exact Hcode].
    unfold BackupMan.get_backup_future. rewrite Hreg. reflexivity.
  - destruct (proj2 (DeleteBackup_registry_on_purge_outcome
                       (env_purge (Ok ()))
                       (DeleteBackupRequest.mk "ghost") ghost_registered))
      as (st' & Hrun & _ & Hgone & _ & Hctx); [reflexivity|].
    exists st'. split; [exact Hrun|]. split; [exact Hgone|].
    rewrite Hctx. reflexivity.
Defined.

(** ** BackupStatus *)

(** A fault of the storage lookup that is not a [KeyError] leaves
    [BackupStatus]: its [except] clause names [KeyError] only. *)
Lemma BackupStatus_propagates env request st e :
  get_cluster_backup env (BackupStatusRequest.backupName request) = Raise e →
  exc_class e ≠ KeyError →
  serve (BackupStatus env request) BackupStatusResponse.new st = (Raise e, st).
Proof.
  intros H Hne. unfold BackupStatus. unfold_monad. rewrite H.
  rewrite bool_decide_eq_false_2 by done. reflexivity.
Qed.

(** A [KeyError] is answered by NOT_FOUND and the untouched response. *)
Lemma BackupStatus_not_found env request st e :
  get_cluster_backup env (BackupStatusRequest.backupName request) = Raise e →
  exc_class e = KeyError →
  serve (BackupStatus env request) BackupStatusResponse.new st =
    (Ok BackupStatusResponse.new,
     set_code grpc.NOT_FOUND
       (set_details (format "backup <{}> does not exist"
          [BackupStatusRequest.backupName request]) st)).
Proof.
  intros H He. unfold BackupStatus. unfold_monad. rewrite H.
  rewrite bool_decide_eq_true_2 by done. reflexivity.
Qed.

(** C10 fails on the code: a storage fault other than [KeyError], a record
    without start timestamp (a [TypeError] from [datetime.fromtimestamp]),
    and an exception captured in the registered asyncio future each leave
    [BackupStatus] as a raised exception; the context is not touched. *)
Theorem BackupStatus_lets_faults_through :
  serve (BackupStatus (env_storage (Raise (mkException IOError "bucket unreachable")))
           (BackupStatusRequest.mk "snap1")) BackupStatusResponse.new idle
    = (Raise (mkException IOError "bucket unreachable"), idle) ∧
  serve (BackupStatus (env_storage (Ok record_B))
           (BackupStatusRequest.mk "snap1")) BackupStatusResponse.new idle
    = (Raise (mkException TypeError "an integer is required (got type NoneType)"),
       logging.info "Checking status: handle_backup_status " idle) ∧
  serve (BackupStatus (env_storage (Ok record_A))
           (BackupStatusRequest.mk "snap1")) BackupStatusResponse.new
        (snap1_raised AsyncioFuture)
    = (Raise (mkException IOError "disk full"),
       logging.info "Checking status: handle_backup_status " (snap1_raised AsyncioFuture)).
Proof. by vm_compute. Qed.

(** The path of a record that is found: the assignment to the repeated
    field [finishedNodes] is refused, and the fault leaves the handler. *)
Example BackupStatus_example :
  serve (BackupStatus (env_storage (Ok record_A))
           (BackupStatusRequest.mk "a")) BackupStatusResponse.new three_futures
    = (Raise (mkException AttributeError
                ("Assignment not allowed to repeated field " +:+ dquote +:+ "finishedNodes"
                   +:+ dquote +:+ " in protocol message object.")),
       logging.info "Checking status: handle_backup_status " three_futures).
Proof. by vm_compute. Qed.

(** ** Registry references stay valid *)





Lemma handle_backup_removal_all_clears name st :
  BackupMan.get_backup_future name (handle_backup_removal_all st) = None.
Proof. apply lookup_empty. Qed.

(** * Further properties of the service *)

(** ** The resolver, read backwards *)

(** The answer of the resolver, by the entry that the name leads to. *)
Lemma handle_backup_status_cases name st :
  (handle_backup_status name st = Ok (None, None) ∧
     ∀ l f, backups st !! name = Some l → heap st !! l = Some f →
       asyncio.isfuture f = false) ∨
  (∃ l f, backups st !! name = Some l ∧ heap st !! l = Some f ∧
     asyncio.isfuture f = true ∧
     handle_backup_status name st =
       match fut_state f with
       | PENDING => Ok (Some BackupMan.IN_PROGRESS, None)
       | FINISHED r => Ok (Some BackupMan.SUCCESS, r)
       | RAISED e => Raise e
       | CANCELLED => Ok (Some BackupMan.FAILED, None)
       end).
Proof.
  destruct (backups st !! name) as [l|] eqn:Hl.
  - destruct (heap st !! l) as [f|] eqn:Hf.
    + pose proof (handle_backup_status_lookup _ _ _ _ Hl Hf) as H.
      destruct (asyncio.isfuture f) eqn:Hc.
      * right. exists l, f. done.
      * left. split; [done|]. intros l' f' ? ?. by simplify_eq.
    + left. split.
      * unfold handle_backup_status, BackupMan.get_backup_future. rewrite Hl. simpl.
        by rewrite Hf.
      * intros l' f' ? ?. by simplify_eq.
  - left. split; [by apply handle_backup_status_absent|done].
Qed.

(** X2: the resolver raises exactly when the name leads to an asyncio future
    that holds a captured exception, and what it raises is that exception. *)
Theorem handle_backup_status_raises_iff_captured name st e :
  handle_backup_status name st = Raise e ↔
  ∃ l f, backups st !! name = Some l ∧ heap st !! l = Some f ∧
    asyncio.isfuture f = true ∧ fut_state f = RAISED e.
Proof.
  split.
  - intros H.
    destruct (handle_backup_status_cases name st) as [[H0 _]|(l & f & Hl & Hf & Hc & H1)].
    + by rewrite H0 in H.
    + exists l, f. rewrite H1 in H. destruct (fut_state f); by simplify_eq.
  - intros (l & f & Hl & Hf & Hc & Hs). by eapply handle_backup_status_raised.
Qed.

(** X3: the resolver answers FAILED exactly when the name leads to a
    cancelled asyncio future. *)
Theorem handle_backup_status_failed_iff_cancelled name st r :
  handle_backup_status name st = Ok (Some BackupMan.FAILED, r) ↔
  r = None ∧
  ∃ l f, backups st !! name = Some l ∧ heap st !! l = Some f ∧
    asyncio.isfuture f = true ∧ future.cancelled f = true.
Proof.
  unfold future.cancelled. split.
  - intros H.
    destruct (handle_backup_status_cases name st) as [[H0 _]|(l & f & Hl & Hf & Hc & H1)].
    + rewrite H0 in H. by simplify_eq.
    + rewrite H1 in H. destruct (fut_state f) eqn:Hs; simplify_eq.
      split; [done|]. exists l, f. by rewrite Hs.
  - intros (-> & l & f & Hl & Hf & Hc & Hs).
    rewrite (handle_backup_status_lookup _ _ _ _ Hl Hf), Hc. by destruct (fut_state f).
Qed.

Lemma handle_backup_status_raises_iff_captured_witness :
  handle_backup_status "snap1" (snap1_raised AsyncioFuture)
    = Raise (mkException IOError "disk full").
Proof.
  apply (proj2 (handle_backup_status_raises_iff_captured "snap1"
                  (snap1_raised AsyncioFuture) (mkException IOError "disk full"))).
  exists 0%nat, (mkFuture AsyncioFuture (RAISED (mkException IOError "disk full"))).
  repeat split; reflexivity.
Defined.

Lemma handle_backup_status_failed_iff_cancelled_witness :
  handle_backup_status "c" three_futures = Ok (Some BackupMan.FAILED, None).
Proof.
  apply (proj2 (handle_backup_status_failed_iff_cancelled "c" three_futures None)).
  split; [reflexivity|].
  exists 2%nat, (mkFuture AsyncioFuture CANCELLED).
  repeat split; reflexivity.
Defined.

(** ** Backup and the job *)

(** With nothing else queued, the state in which [Backup] returns after a
    successful submission: one future more, holding the job's outcome. *)
Lemma Backup_ok_state_idle_queue env request st :
  work_queue st = [] →
  let l := fresh (dom (heap st)) in
  heap (Backup_ok_state env request st) =
    <[l := mkFuture ConcurrentFuture
             match handle_backup env (BackupRequest.name request) (backup_mode request) with
             | JobReturns r => FINISHED r
             | JobRaises e => RAISED e
             end]> (heap st).
Proof.
  intros Hq. unfold Backup_ok_state. simpl. rewrite Hq. simpl.
  unfold ThreadPoolExecutor.run_work_item. simpl.
  apply map_eq. intros l'.
  destruct (decide (fresh (dom (heap st)) = l')) as [<-|Hne].
  - rewrite lookup_alter_eq, !lookup_insert_eq. reflexivity.
  - rewrite lookup_alter_ne, !lookup_insert_ne by done. reflexivity.
Qed.

(** X4: when the submission succeeds and no other work is queued, [Backup]
    returns IN_PROGRESS without signalling an error whatever the job does,
    and in the state in which it returns the handle registered under the
    name already holds the job's outcome (its result, or the exception it
    raised), for the job run with mode ["full"] when the request's mode is
    FULL and ["differential"] otherwise; the executor's queue is empty again
    and the futures that existed before are unchanged. *)
Theorem Backup_handle_holds_job_outcome env request st :
  work_queue st = [] →
  submit_fault env (BackupRequest.name request)
    (if decide (BackupRequest.mode request = FULL) then "full" else "differential") = None →
  ∃ st' l,
    serve (Backup env request) BackupResponse.new st =
      (Ok (BackupResponse.mk (BackupRequest.name request) (Some IN_PROGRESS)), st') ∧
    BackupMan.get_backup_future (BackupRequest.name request) st' = Some l ∧
    heap st' !! l =
      Some (mkFuture ConcurrentFuture
              match handle_backup env (BackupRequest.name request)
                      (if decide (BackupRequest.mode request = FULL)
                       then "full" else "differential") with
              | JobReturns r => FINISHED r
              | JobRaises e => RAISED e
              end) ∧
    (∀ l', l' ≠ l → heap st' !! l' = heap st !! l') ∧
    work_queue st' = [] ∧
    context st' = context st.
Proof.
  intros Hq Hsubmit.
  assert (Hmode : (if decide (BackupRequest.mode request = FULL)
                   then "full" else "differential") = backup_mode request).
  { unfold backup_mode. by repeat case_decide. }
  rewrite Hmode in *.
  exists (Backup_ok_state env request st), (fresh (dom (heap st))).
  split; [by apply Backup_submit_ok|].
  split; [apply lookup_insert_eq|].
  rewrite (Backup_ok_state_idle_queue _ _ _ Hq).
  split; [apply lookup_insert_eq|].
  split; [|done].
  intros l' Hne. by rewrite lookup_insert_ne.
Qed.

Lemma Backup_handle_holds_job_outcome_witness :
  ∃ st' l,
    serve (Backup env_job_fails (BackupRequest.mk "snap1" DIFFERENTIAL))
      BackupResponse.new three_futures =
      (Ok (BackupResponse.mk "snap1" (Some IN_PROGRESS)), st') ∧
    BackupMan.get_backup_future "snap1" st' = Some l ∧
    heap st' !! l =
      Some (mkFuture ConcurrentFuture (RAISED (mkException IOError "disk full"))) ∧
    (∀ l', l' ≠ l → heap st' !! l' = heap three_futures !! l') ∧
    work_queue st' = [] ∧
    context st' = context three_futures.
Proof.
  apply (Backup_handle_holds_job_outcome env_job_fails
           (BackupRequest.mk "snap1" DIFFERENTIAL) three_futures); reflexivity.
Defined.

(** X5: [Backup] under a name that is already registered replaces the
    entry: afterwards the name leads to the new handle, which is not the
    one registered before, and the earlier future is still in the store. *)
Theorem Backup_replaces_registered_handle env request st l0 f0 :
  BackupMan.get_backup_future (BackupRequest.name request) st = Some l0 →
  heap st !! l0 = Some f0 →
  submit_fault env (BackupRequest.name request) (backup_mode request) = None →
  ∃ l f0',
    BackupMan.get_backup_future (BackupRequest.name request)
      (serve (Backup env request) BackupResponse.new st).2 = Some l ∧
    l ≠ l0 ∧
    heap (serve (Backup env request) BackupResponse.new st).2 !! l0 = Some f0' ∧
    fut_class f0' = fut_class f0 ∧
    (future.done f0 = true → f0' = f0).
Proof.
  intros Hl0 Hf0 Hsubmit. rewrite (Backup_submit_ok _ _ _ Hsubmit).
  set (l := fresh (dom (heap st))).
  assert (Hne : l ≠ l0).
  { intros Heq. pose proof (fresh_loc_unused st) as Hfresh. fold l in Hfresh.
    rewrite Heq, Hf0 in Hfresh. done. }
  destruct (foldl_run_work_item_lookup
              (work_queue st ++
                 [mkWorkItem l (handle_backup env (BackupRequest.name request)
                                  (backup_mode request))])
              (<[l := mkFuture ConcurrentFuture PENDING]> (heap st)) l0 f0)
    as (f0' & H1 & H2 & H3).
  { by rewrite lookup_insert_ne. }
  exists l, f0'. split; [apply lookup_insert_eq|]. split; [done|]. split; [exact H1|done].
Qed.

Lemma Backup_replaces_registered_handle_witness :
  ∃ l f0',
    BackupMan.get_backup_future "snap1"
      (serve (Backup env_ok (BackupRequest.mk "snap1" FULL)) BackupResponse.new snap1_done).2
      = Some l ∧
    l ≠ 0%nat ∧
    heap (serve (Backup env_ok (BackupRequest.mk "snap1" FULL))
            BackupResponse.new snap1_done).2 !! 0%nat = Some f0' ∧
    fut_class f0' = ConcurrentFuture ∧
    (future.done (mkFuture ConcurrentFuture (FINISHED (Some "stats"))) = true →
       f0' = mkFuture ConcurrentFuture (FINISHED (Some "stats"))).
Proof.
  apply (Backup_replaces_registered_handle env_ok (BackupRequest.mk "snap1" FULL)
           snap1_done 0%nat (mkFuture ConcurrentFuture (FINISHED (Some "stats"))));
    reflexivity.
Defined.

Lemma Backup_registers_unaccepted_handle env request st :
  submit_fault env (BackupRequest.name request) (backup_mode request) = None →
  handle_backup_status (BackupRequest.name request)
    (serve (Backup env request) BackupResponse.new st).2 = Ok (None, None).
Proof.
  intros Hsubmit. rewrite (Backup_submit_ok _ _ _ Hsubmit). simpl.
  destruct (Backup_returns_after_job env request st Hsubmit) as (f & Hf & Hc & _).
  rewrite (handle_backup_status_lookup _ _ (fresh (dom (heap st))) f).
  - unfold asyncio.isfuture. by rewrite Hc.
  - apply lookup_insert_eq.
  - exact Hf.
Qed.

(** ** BackupStatus *)

Lemma handle_backup_status_log name msg st :
  handle_backup_status name (logging.info msg st) = handle_backup_status name st.
Proof. reflexivity. Qed.

(** The path of a record that is found, as one equation. *)
Lemma BackupStatus_found env request st b t c s r :
  get_cluster_backup env (BackupStatusRequest.backupName request) = Ok b →
  handle_backup_status (BackupStatusRequest.backupName request) st = Ok (s, r) →
  ClusterBackup.started b = Some t →
  timestamp_fault env t = None →
  ClusterBackup.complete_nodes b = Ok c →
  serve (BackupStatus env request) BackupStatusResponse.new st =
    (Raise finishedNodes_refused,
     logging.info "Checking status: handle_backup_status " st).
Proof.
  intros Hb Hs Ht Hplat Hc. unfold BackupStatus. unfold_monad.
  rewrite Hb. simpl. rewrite handle_backup_status_log, Hs, Ht. simpl.
  rewrite Hplat, Hc. reflexivity.
Qed.

(** X6: when the record is found with a start timestamp that the platform
    converts, the resolver returns and [complete_nodes()] returns,
    [BackupStatus] gives no answer: assigning the list of node names to the
    repeated field [finishedNodes] raises an [AttributeError], which is not
    a [KeyError] and leaves the handler.  One line is logged; the context,
    the registry and the futures are untouched. *)
Theorem BackupStatus_found_record_raises env request st b t c s r :
  get_cluster_backup env (BackupStatusRequest.backupName request) = Ok b →
  handle_backup_status (BackupStatusRequest.backupName request) st = Ok (s, r) →
  ClusterBackup.started b = Some t →
  timestamp_fault env t = None →
  ClusterBackup.complete_nodes b = Ok c →
  ∃ e,
    serve (BackupStatus env request) BackupStatusResponse.new st =
      (Raise e, logging.info "Checking status: handle_backup_status " st) ∧
    exc_class e = AttributeError.
Proof.
  intros Hb Hs Ht Hplat Hc. exists finishedNodes_refused.
  split; [by eapply BackupStatus_found|done].
Qed.

Lemma BackupStatus_found_record_raises_witness :
  ∃ e,
    serve (BackupStatus env_all_ok (BackupStatusRequest.mk "b"))
      BackupStatusResponse.new three_futures =
      (Raise e, logging.info "Checking status: handle_backup_status " three_futures) ∧
    exc_class e = AttributeError.
Proof.
  apply (BackupStatus_found_record_raises env_all_ok (BackupStatusRequest.mk "b")
           three_futures record_A 100 [mkNodeBackup "node1"; mkNodeBackup "node2"]
           (Some BackupMan.IN_PROGRESS) None); reflexivity.
Defined.

(** X7: [BackupStatus] called after a successful [Backup] of the same name,
    for a record that is found with a start timestamp that the platform
    converts and whose [complete_nodes()] returns, does not return a
    response: it raises the [AttributeError] of the assignment to
    [finishedNodes]. *)
Theorem Backup_then_BackupStatus_raises env request st b t c :
  submit_fault env (BackupRequest.name request) (backup_mode request) = None →
  get_cluster_backup env (BackupRequest.name request) = Ok b →
  ClusterBackup.started b = Some t →
  timestamp_fault env t = None →
  ClusterBackup.complete_nodes b = Ok c →
  ∃ e,
    (serve (BackupStatus env (BackupStatusRequest.mk (BackupRequest.name request)))
       BackupStatusResponse.new
       (serve (Backup env request) BackupResponse.new st).2).1 = Raise e ∧
    exc_class e = AttributeError.
Proof.
  intros Hsubmit Hb Ht Hplat Hc.
  pose proof (Backup_registers_unaccepted_handle env request st Hsubmit) as Hs.
  exists finishedNodes_refused. split; [|done].
  by erewrite (BackupStatus_found env (BackupStatusRequest.mk (BackupRequest.name request))).
Qed.

Lemma Backup_then_BackupStatus_raises_witness :
  ∃ e,
    (serve (BackupStatus env_all_ok (BackupStatusRequest.mk "snap1"))
       BackupStatusResponse.new
       (serve (Backup env_all_ok (BackupRequest.mk "snap1" FULL))
          BackupResponse.new idle).2).1 = Raise e ∧
    exc_class e = AttributeError.
Proof.
  apply (Backup_then_BackupStatus_raises env_all_ok (BackupRequest.mk "snap1" FULL)
           idle record_A 100 [mkNodeBackup "node1"; mkNodeBackup "node2"]);
    reflexivity.
Defined.

(** X8: a [KeyError] raised after the record was found is answered like a
    missing record.  When the record is found with a start timestamp that
    the platform converts, the resolver returns and [complete_nodes()]
    raises a [KeyError], [BackupStatus] returns normally with code NOT_FOUND
    and the details ["backup <name> does not exist"]; the response it
    returns keeps the start time that was assigned before the fault and has
    nothing else assigned. *)
Theorem BackupStatus_late_KeyError_reported_as_missing env request st b t e s r :
  get_cluster_backup env (BackupStatusRequest.backupName request) = Ok b →
  handle_backup_status (BackupStatusRequest.backupName request) st = Ok (s, r) →
  ClusterBackup.started b = Some t →
  timestamp_fault env t = None →
  ClusterBackup.complete_nodes b = Raise e →
  exc_class e = KeyError →
  serve (BackupStatus env request) BackupStatusResponse.new st =
    (Ok (BackupStatusResponse.mk (Strftime t) EmptyTime [] [] [] None),
     set_code grpc.NOT_FOUND
       (set_details (format "backup <{}> does not exist"
          [BackupStatusRequest.backupName request])
          (logging.info "Checking status: handle_backup_status " st))).
Proof.
  intros Hb Hs Ht Hplat Hc He. unfold BackupStatus. unfold_monad.
  rewrite Hb. simpl. rewrite handle_backup_status_log, Hs, Ht. simpl.
  rewrite Hplat, Hc. rewrite bool_decide_eq_true_2 by done. reflexivity.
Qed.

Lemma BackupStatus_late_KeyError_reported_as_missing_witness :
  serve (BackupStatus (env_platform (Ok record_E)) (BackupStatusRequest.mk "E"))
    BackupStatusResponse.new idle =
    (Ok (BackupStatusResponse.mk (Strftime 1000) EmptyTime [] [] [] None),
     set_code grpc.NOT_FOUND
       (set_details "backup <E> does not exist"
          (logging.info "Checking status: handle_backup_status " idle))).
Proof.
  apply (BackupStatus_late_KeyError_reported_as_missing (env_platform (Ok record_E))
           (BackupStatusRequest.mk "E") idle record_E 1000
           (mkException KeyError "node1") None None); reflexivity.
Defined.

(** X9: when the storage lookup raises a [KeyError], [BackupStatus] returns
    the response with nothing assigned, sets the code NOT_FOUND and the
    details ["backup <name> does not exist"], logs nothing and does not
    consult the registry: the answer is the same whatever is registered. *)
Theorem BackupStatus_missing_record env request st e :
  get_cluster_backup env (BackupStatusRequest.backupName request) = Raise e →
  exc_class e = KeyError →
  serve (BackupStatus env request) BackupStatusResponse.new st =
    (Ok (BackupStatusResponse.mk EmptyTime EmptyTime [] [] [] None),
     set_code grpc.NOT_FOUND
       (set_details (format "backup <{}> does not exist"
          [BackupStatusRequest.backupName request]) st)).
Proof.
  intros H He. unfold BackupStatus. unfold_monad. rewrite H.
  rewrite bool_decide_eq_true_2 by done. reflexivity.
Qed.

Lemma BackupStatus_missing_record_witness :
  serve (BackupStatus env_ok (BackupStatusRequest.mk "a"))
    BackupStatusResponse.new three_futures =
    (Ok (BackupStatusResponse.mk EmptyTime EmptyTime [] [] [] None),
     set_code grpc.NOT_FOUND (set_details "backup <a> does not exist" three_futures)).
Proof.
  apply (BackupStatus_missing_record env_ok (BackupStatusRequest.mk "a") three_futures
           (mkException KeyError "snap1")); reflexivity.
Defined.

(** ** What BackupStatus leaves in place *)

Section Preservation.

Context {R : Type} (rel : State → State → Prop).

Lemma preserves_ret {A} (a : A) : preserves (R := R) rel (mret a).
Proof. by intros st fr H. Qed.

Lemma preserves_lift {A} (r : Result A) : preserves (R := R) rel (lift r).
Proof. by intros st fr H. Qed.

Lemma preserves_gets {A} (f : Frame R → A) : preserves rel (gets f).
Proof. by intros st fr H. Qed.

Lemma preserves_on_response (f : R → R) : preserves rel (on_response f).
Proof. by intros st fr H. Qed.

Lemma preserves_on_process (f : State → State) :
  (∀ st st', rel st st' → rel st (f st')) → preserves (R := R) rel (on_process f).
Proof. intros Hf st fr H. by apply Hf. Qed.

Lemma preserves_pure {A} (f : Frame R → Result A) :
  preserves rel (λ fr, (f fr, fr)).
Proof. by intros st fr H. Qed.

Lemma preserves_bind {A B} (m : M (Frame R) A) (k : A → M (Frame R) B) :
  preserves rel m → (∀ a, preserves rel (k a)) → preserves rel (m ≫= k).
Proof.
  intros Hm Hk st fr H. unfold mbind, M_bind.
  specialize (Hm st fr H). destruct (m fr) as [[a|e] fr']; simpl in *; [|done].
  by apply Hk.
Qed.

Lemma preserves_try_except {A} (body : M (Frame R) A) catches handler :
  preserves rel body → (∀ e, preserves rel (handler e)) →
  preserves rel (try_except body catches handler).
Proof.
  intros Hm Hh st fr H. unfold try_except.
  specialize (Hm st fr H). destruct (body fr) as [[a|e] fr']; simpl in *; [done|].
  destruct (catches e); [by apply Hh|done].
Qed.

End Preservation.

Lemma only_logged_refl st : only_logged st st.
Proof. by repeat split. Qed.

Lemma only_logged_info msg st st' : only_logged st st' → only_logged st (logging.info msg st').
Proof. by intros [(? & ? & ?) ?]. Qed.

Lemma store_kept_refl st : store_kept st st.
Proof. by repeat split. Qed.

Lemma store_kept_info msg st st' : store_kept st st' → store_kept st (logging.info msg st').
Proof. by intros (? & ? & ?). Qed.

Lemma store_kept_set_details d st st' : store_kept st st' → store_kept st (set_details d st').
Proof. by intros (? & ? & ?). Qed.

Lemma store_kept_set_code c st st' : store_kept st st' → store_kept st (set_code c st').
Proof. by intros (? & ? & ?). Qed.

(** Solves [preserves rel m] for a handler body built from the monad's
    operations. *)
Ltac preserves_steps :=
  repeat first
    [ apply preserves_bind; [|intros ?]
    | apply preserves_try_except; [|intros ?]
    | apply preserves_ret
    | apply preserves_lift
    | apply preserves_gets
    | apply preserves_on_response
    | apply preserves_pure
    | apply preserves_on_process; intros ? ?;
        first [ apply only_logged_info | apply store_kept_info
              | apply store_kept_set_details | apply store_kept_set_code ]
    | match goal with
      | |- preserves _ (if ?c then _ else _) => destruct c
      | |- preserves _ (let '(_, _) := ?p in _) => destruct p
      | |- preserves _ (match ?p with (_, _) => _ end) => destruct p
      end ].

Lemma BackupStatus_keeps_store env request : preserves store_kept (BackupStatus env request).
Proof. unfold BackupStatus. preserves_steps. Qed.

Lemma serve_state {R} (h : M (Frame R) R) (r0 : R) (st : State) :
  (serve h r0 st).2 = process (h (mkFrame st r0)).2.
Proof. unfold serve. by destruct (h (mkFrame st r0)). Qed.

Lemma serve_raise_inv {R} (h : M (Frame R) R) (r0 : R) (st st' : State) e :
  serve h r0 st = (Raise e, st') →
  ∃ fr', h (mkFrame st r0) = (Raise e, fr') ∧ process fr' = st'.
Proof.
  unfold serve. destruct (h (mkFrame st r0)) as [r fr']. intros H. simplify_eq. eauto.
Qed.

Lemma try_except_raise_inv {S A} (body : M S A) catches handler s e s' :
  try_except body catches handler s = (Raise e, s') →
  (body s = (Raise e, s') ∧ catches e = false) ∨
  (∃ e0 s0, body s = (Raise e0, s0) ∧ catches e0 = true ∧ handler e0 s0 = (Raise e, s')).
Proof.
  unfold try_except. destruct (body s) as [[a|e0] s0]; [done|].
  destruct (catches e0) eqn:Hc; intros H.
  - right. eauto.
  - left. by simplify_eq.
Qed.

(** X10: [BackupStatus] only reads the process: whether it returns or
    raises, the registry, the futures and the executor's queue are as
    before the call. *)
Theorem BackupStatus_reads_only env request st :
  store_kept st (serve (BackupStatus env request) BackupStatusResponse.new st).2.
Proof.
  rewrite serve_state. apply BackupStatus_keeps_store. apply store_kept_refl.
Qed.

(** X11: an exception that leaves [BackupStatus] is never a [KeyError], and
    the call has then set neither code nor details: apart from the log, the
    process state is as before. *)
Theorem BackupStatus_raise_is_unreported env request st e st' :
  serve (BackupStatus env request) BackupStatusResponse.new st = (Raise e, st') →
  exc_class e ≠ KeyError ∧ only_logged st st'.
Proof.
  intros H. apply serve_raise_inv in H as (fr' & H & <-).
  unfold BackupStatus in H.
  apply try_except_raise_inv in H as [[Hbody Hc]|(e0 & fr0 & _ & _ & Hh)].
  - split.
    + unfold except_KeyError in Hc. by apply bool_decide_eq_false in Hc.
    + match type of Hbody with
      | ?body _ = _ => assert (Hp : preserves only_logged body) by preserves_steps
      end.
      specialize (Hp st (mkFrame st BackupStatusResponse.new) (only_logged_refl st)).
      by rewrite Hbody in Hp.
  - unfold_monad. discriminate Hh.
Qed.

Lemma BackupStatus_raise_is_unreported_witness :
  exc_class (mkException IOError "bucket unreachable") ≠ KeyError ∧
  only_logged idle idle.
Proof.
  apply (BackupStatus_raise_is_unreported
           (env_storage (Raise (mkException IOError "bucket unreachable")))
           (BackupStatusRequest.mk "snap1") idle).
  reflexivity.
Defined.

(** ** GetBackups *)

(** X12: [GetBackups] always returns a response and never raises; it leaves
    the registry, the futures, the executor's queue and the log as they
    were (a failure is reported through the context only, not logged); and
    either the whole state is untouched or the code is INTERNAL. *)
Theorem GetBackups_always_answers env st :
  ∃ resp st',
    serve (GetBackups env) GetBackupsResponse.new st = (Ok resp, st') ∧
    store_kept st st' ∧ log st' = log st ∧
    (st' = st ∨ code (context st') = Some grpc.INTERNAL).
Proof.
  destruct (get_backups env) as [bs|e] eqn:Hlist.
  - eexists _, _. split; [by apply GetBackups_listed|].
    destruct (first_fault bs); simpl; repeat split; auto.
  - eexists _, _. split; [by apply GetBackups_listing_fails|].
    simpl. repeat split; auto.
Qed.

Lemma summary_status_success bs i b s :
  bs !! i = Some b → summaries bs BackupMan.SUCCESS !! i = Some s →
  BackupSummary.status s = Some BackupMan.SUCCESS ↔
  is_Some (ClusterBackup.finished b) ∧ forallb finish_known (take i bs) = true.
Proof.
  intros Hb Hs. destruct (summaries_at bs _ i b s Hb Hs) as (c & _ & ->). simpl.
  rewrite foldl_next_status.
  destruct (ClusterBackup.finished b) as [t|]; destruct (forallb _ _); simpl;
    split; try done; try (intros [[? ?] ?]; done); eauto.
Qed.

Lemma summaries_length_le bs : ∀ ls, (length (summaries bs ls) ≤ length bs)%nat.
Proof.
  induction bs as [|b bs IH]; intros ls; simpl; [done|].
  destruct (summarize b ls) as [[s ls']|e]; simpl; [|lia].
  specialize (IH ls'). lia.
Qed.

(** X13: in the response of [GetBackups] the summaries with status SUCCESS
    form a prefix: if a summary has status SUCCESS, so has every summary
    before it; and no summary has status FAILED. *)
Theorem GetBackups_success_is_a_prefix env st bs :
  get_backups env = Ok bs →
  ∃ resp st',
    serve (GetBackups env) GetBackupsResponse.new st = (Ok resp, st') ∧
    (∀ i j si sj,
       (i ≤ j)%nat →
       GetBackupsResponse.backups resp !! i = Some si →
       GetBackupsResponse.backups resp !! j = Some sj →
       BackupSummary.status sj = Some BackupMan.SUCCESS →
       BackupSummary.status si = Some BackupMan.SUCCESS) ∧
    (∀ s, s ∈ GetBackupsResponse.backups resp →
       BackupSummary.status s ≠ Some BackupMan.FAILED).
Proof.
  intros Hlist. eexists _, _. split; [by apply GetBackups_listed|]. simpl. split.
  - intros i j si sj Hij Hi Hj Hsj.
    assert (Hbi : is_Some (bs !! i)).
    { apply lookup_lt_is_Some. apply lookup_lt_Some in Hi.
      pose proof (summaries_length_le bs BackupMan.SUCCESS). lia. }
    assert (Hbj : is_Some (bs !! j)).
    { apply lookup_lt_is_Some. apply lookup_lt_Some in Hj.
      pose proof (summaries_length_le bs BackupMan.SUCCESS). lia. }
    destruct Hbi as [bi Hbi], Hbj as [bj Hbj].
    apply (summary_status_success bs j bj sj Hbj Hj) in Hsj as [Hfj Hall].
    apply (summary_status_success bs i bi si Hbi Hi).
    apply Is_true_true, forallb_True in Hall.
    destruct (decide (i = j)) as [->|Hne].
    + simplify_eq. split; [done|]. by apply Is_true_true, forallb_True.
    + split.
      * assert (Hin : take j bs !! i = Some bi) by (rewrite lookup_take_lt by lia; done).
        pose proof (Forall_lookup_1 _ _ _ _ Hall Hin) as Hk.
        unfold finish_known in Hk. by apply bool_decide_unpack in Hk.
      * apply Is_true_true, forallb_True.
        replace (take i bs) with (take i (take j bs))
          by (rewrite take_take; f_equal; lia).
        by apply Forall_take.
  - intros s Hin. apply list_elem_of_lookup in Hin as [i Hi].
    assert (Hbi : is_Some (bs !! i)).
    { apply lookup_lt_is_Some. apply lookup_lt_Some in Hi.
      pose proof (summaries_length_le bs BackupMan.SUCCESS). lia. }
    destruct Hbi as [b Hb].
    destruct (summaries_at bs _ i b s Hb Hi) as (c & _ & ->). simpl.
    destruct (ClusterBackup.finished b); [|done]. by case_decide.
Qed.

Lemma GetBackups_success_is_a_prefix_witness :
  ∃ resp st',
    serve (GetBackups env_all_ok) GetBackupsResponse.new idle = (Ok resp, st') ∧
    (∀ i j si sj,
       (i ≤ j)%nat →
       GetBackupsResponse.backups resp !! i = Some si →
       GetBackupsResponse.backups resp !! j = Some sj →
       BackupSummary.status sj = Some BackupMan.SUCCESS →
       BackupSummary.status si = Some BackupMan.SUCCESS) ∧
    (∀ s, s ∈ GetBackupsResponse.backups resp →
       BackupSummary.status s ≠ Some BackupMan.FAILED).
Proof.
  apply (GetBackups_success_is_a_prefix env_all_ok idle [record_A; record_B; record_C]).
  reflexivity.
Defined.

Lemma summaries_in_progress_count bs : ∀ ls,
  Forall summarizable bs →
  length (filter (λ s, BackupSummary.status s = Some BackupMan.IN_PROGRESS) (summaries bs ls))
    = length (filter (λ b, ClusterBackup.finished b = None) bs).
Proof.
  intros ls Hbs. revert ls.
  induction Hbs as [|b bs Hb _ IH]; intros ls; simpl; [done|].
  destruct (summarize_ok b ls Hb) as (c & _ & ->).
  rewrite !filter_cons. unfold summary_of at 1. simpl.
  destruct (ClusterBackup.finished b) as [t|] eqn:Hfin.
  - rewrite decide_False by (case_decide; done).
    rewrite decide_False by done. apply IH.
  - rewrite !decide_True by done. simpl. by rewrite IH.
Qed.

(** X14: when every listed record is summarized (none of its values is
    refused by a protobuf field and [complete_nodes()] returns), the number
    of summaries that [GetBackups] marks IN_PROGRESS is the number of
    records without finish timestamp. *)
Theorem GetBackups_in_progress_count env st bs :
  get_backups env = Ok bs → Forall summarizable bs →
  ∃ resp,
    serve (GetBackups env) GetBackupsResponse.new st = (Ok resp, st) ∧
    length (filter (λ s, BackupSummary.status s = Some BackupMan.IN_PROGRESS)
              (GetBackupsResponse.backups resp))
      = length (filter (λ b, ClusterBackup.finished b = None) bs).
Proof.
  intros Hlist Hbs. eexists. split.
  - rewrite (GetBackups_listed _ _ _ Hlist). by rewrite first_fault_summarizable.
  - simpl. by apply summaries_in_progress_count.
Qed.

Lemma GetBackups_in_progress_count_witness :
  ∃ resp,
    serve (GetBackups env_all_ok) GetBackupsResponse.new idle = (Ok resp, idle) ∧
    length (filter (λ s, BackupSummary.status s = Some BackupMan.IN_PROGRESS)
              (GetBackupsResponse.backups resp))
      = length (filter (λ b, ClusterBackup.finished b = None)
                  [record_A; record_B; record_C]).
Proof.
  apply (GetBackups_in_progress_count env_all_ok idle [record_A; record_B; record_C]).
  - reflexivity.
  - repeat (constructor; [solve_summarizable|]); constructor.
Defined.

(** ** DeleteBackup *)

Lemma DeleteBackup_state env request st :
  serve (DeleteBackup env request) DeleteBackupResponse.new st =
    (Ok DeleteBackupResponse.new,
     let st1 := logging.info (format "Deleting backup {}" [DeleteBackupRequest.name request]) st in
     match delete_backup env [DeleteBackupRequest.name request] with
     | Ok _ => handle_backup_removal (DeleteBackupRequest.name request) st1
     | Raise e =>
         logging.exception
           (format "Deleting backup {} failed" [DeleteBackupRequest.name request]) e
           (set_code grpc.INTERNAL
              (set_details (format "deleting backups failed: {}" [exc_str e]) st1))
     end).
Proof.
  unfold DeleteBackup. unfold_monad.
  by destruct (delete_backup env [DeleteBackupRequest.name request]).
Qed.

(** X15: [DeleteBackup] never raises and never touches a future: whatever
    the purge does, the handler returns the empty response, and the futures
    and the executor's queue are as before, so a job whose entry is removed
    is not cancelled; the first thing logged is ["Deleting backup <name>"]. *)
Theorem DeleteBackup_never_cancels env request st :
  ∃ st' logged,
    serve (DeleteBackup env request) DeleteBackupResponse.new st
      = (Ok DeleteBackupResponse.new, st') ∧
    heap st' = heap st ∧ work_queue st' = work_queue st ∧
    log st' = log st ++
      LogInfo (format "Deleting backup {}" [DeleteBackupRequest.name request]) :: logged.
Proof.
  rewrite DeleteBackup_state.
  destruct (delete_backup env [DeleteBackupRequest.name request]) as [[]|e].
  - exists (handle_backup_removal (DeleteBackupRequest.name request)
              (logging.info (format "Deleting backup {}" [DeleteBackupRequest.name request]) st)),
           [].
    done.
  - eexists _, [LogException _ e]. split; [reflexivity|]. simpl.
    split; [done|]. split; [done|]. by rewrite <- app_assoc.
Qed.

(** X16: [Backup] of a name that is not registered, followed by a
    [DeleteBackup] of that name whose purge succeeds, leaves the registry
    as it was before the two calls; the name resolves to not-found again,
    and the job's future, done, is still in the store. *)
Theorem Backup_then_DeleteBackup_restores_registry env request st :
  BackupMan.get_backup_future (BackupRequest.name request) st = None →
  submit_fault env (BackupRequest.name request) (backup_mode request) = None →
  delete_backup env [BackupRequest.name request] = Ok () →
  ∃ st1 st2 f,
    (serve (Backup env request) BackupResponse.new st).2 = st1 ∧
    (serve (DeleteBackup env (DeleteBackupRequest.mk (BackupRequest.name request)))
       DeleteBackupResponse.new st1).2 = st2 ∧
    backups st2 = backups st ∧
    handle_backup_status (BackupRequest.name request) st2 = Ok (None, None) ∧
    heap st2 !! fresh (dom (heap st)) = Some f ∧ future.done f = true.
Proof.
  intros Habsent Hsubmit Hpurge.
  destruct (Backup_returns_after_job env request st Hsubmit) as (f & Hf & _ & Hdone).
  eexists _, _, f. split; [reflexivity|]. split; [reflexivity|].
  rewrite DeleteBackup_state. simpl. rewrite Hpurge.
  rewrite (Backup_submit_ok _ _ _ Hsubmit). simpl.
  assert (Hreg : delete (BackupRequest.name request)
                   (<[BackupRequest.name request := fresh (dom (heap st))]> (backups st))
                 = backups st).
  { rewrite delete_insert_eq. by apply delete_id. }
  split; [exact Hreg|]. split; [|split; [exact Hf|exact Hdone]].
  apply handle_backup_status_absent. simpl. rewrite Hreg. exact Habsent.
Qed.

Lemma Backup_then_DeleteBackup_restores_registry_witness :
  ∃ st1 st2 f,
    (serve (Backup env_all_ok (BackupRequest.mk "snap1" FULL))
       BackupResponse.new three_futures).2 = st1 ∧
    (serve (DeleteBackup env_all_ok (DeleteBackupRequest.mk "snap1"))
       DeleteBackupResponse.new st1).2 = st2 ∧
    backups st2 = backups three_futures ∧
    handle_backup_status "snap1" st2 = Ok (None, None) ∧
    heap st2 !! fresh (dom (heap three_futures)) = Some f ∧ future.done f = true.
Proof.
  apply (Backup_then_DeleteBackup_restores_registry env_all_ok
           (BackupRequest.mk "snap1" FULL) three_futures); reflexivity.
Defined.

(** ** The states the service reaches *)








